(** * gta: temporary IAM role bindings (package provider)

    A shallow embedding of the GCP provider of the gta command line tool:
    the policy data model, the remote get-policy / set-policy pair, and the
    four operations Grant, Revoke, ListTemporaryBindings and
    CleanTemporaryBindings, followed by the properties of the
    binding-management logic.

    Conventions.
    - A Go [[]*Binding] is a [list Binding]: the pointers of one decoded
      policy are pairwise distinct, so writing through [policy.Bindings[i]]
      is an update of the list at position [i].
    - [append(s[:i], s[i+1:]...)] is [take i s ++ drop (S i) s].
    - An indexing [s[i]] out of range panics; a function that can panic
      returns [option] (or [Panicked]).
    - Go's [error] is the message it carries, [nil] is [None]. *)

From Stdlib Require Import ZArith.
From stdpp Require Import base decidable option list strings pretty.

Local Open Scope Z_scope.
Local Open Scope string_scope.
Local Open Scope list_scope.

(** ** Constants *)

(** gcpBindingTitlePrefix is used to identify bindings created by this tool *)
Definition gcpBindingTitlePrefix : string := "gta_temporary_access".

(** policyVersion is required for using conditions in IAM policies *)
Definition policyVersion : Z := 3.

(** rolePrefix is the standard prefix for GCP IAM roles *)
Definition rolePrefix : string := "roles/".

(** ** Data model *)

(** [resourcemanager.Expr] *)
Record Expr := mkExpr {
  Title : string;
  Description : string;
  Expression : string
}.

(** [resourcemanager.Binding]; [Condition] is a nullable pointer. *)
Record Binding := mkBinding {
  Role : string;
  Members : list string;
  Condition : option Expr
}.

(** [resourcemanager.Policy], the two fields the provider reads or writes. *)
Record Policy := mkPolicy {
  Bindings : list Binding;
  Version : Z
}.

(** temporaryBinding represents a binding that will be cleaned up *)
Record temporaryBinding := mkTemporaryBinding {
  tbRole : string;
  tbMember : string;
  tbBindingID : string;
  tbIndex : nat
}.

(** GrantedRole represents a successfully granted role and its binding ID *)
Record GrantedRole := mkGrantedRole {
  grRole : string;
  grBindingID : string
}.

(** GCPProvider: the dry-run flag and the roles granted in this session.
    The context and the service handle are the connection to the remote
    side, which is the [World] below. *)
Record GCPProvider := mkProvider {
  dryRun : bool;
  grantedRoles : list GrantedRole
}.

(** GCPOptions; [TTL] is a [time.Duration], a number of nanoseconds. *)
Record GCPOptions := mkOptions {
  Project : string;
  Roles : list string;
  User : string;
  TTL : Z
}.

(** The [Options] interface: the provider's own options, or a value of
    another implementing type, on which the type assertion fails. *)
Inductive Options :=
| OfGCP (o : GCPOptions)
| OfOther.

#[global] Instance Expr_eq_dec : EqDecision Expr.
Proof. solve_decision. Defined.
#[global] Instance Binding_eq_dec : EqDecision Binding.
Proof. solve_decision. Defined.
#[global] Instance Policy_eq_dec : EqDecision Policy.
Proof. solve_decision. Defined.
#[global] Instance temporaryBinding_eq_dec : EqDecision temporaryBinding.
Proof. solve_decision. Defined.
#[global] Instance GrantedRole_eq_dec : EqDecision GrantedRole.
Proof. solve_decision. Defined.

(** ** Pure helpers *)

(** [strings.HasPrefix(s, p)] *)
Definition HasPrefix (s p : string) : bool := String.prefix p s.

(** formatRole ensures the role has the proper prefix *)
Definition formatRole (role : string) : string :=
  if HasPrefix role rolePrefix then role else rolePrefix +:+ role.

(** formatMember formats a user email into a GCP member string *)
Definition formatMember (email : string) : string := "user:" +:+ email.

(** [binding.Members = ms] *)
Definition withMembers (b : Binding) (ms : list string) : Binding :=
  {| Role := Role b; Members := ms; Condition := Condition b |}.

(** [policy.Bindings = bs] *)
Definition withBindings (p : Policy) (bs : list Binding) : Policy :=
  {| Bindings := bs; Version := Version p |}.

(** The loop that builds [newMembers]: every [m] with [m != member], in
    order. *)
Definition withoutMember (member : string) (ms : list string) : list string :=
  filter (λ m, m ≠ member) ms.

(** [append(bs[:i], bs[i+1:]...)] *)
Definition deleteAt (i : nat) (bs : list Binding) : list Binding :=
  take i bs ++ drop (S i) bs.

(** The body shared by Revoke and CleanTemporaryBindings once the binding
    at position [i] is in hand: drop [member] from it, and delete the
    binding when no member is left. *)
Definition removeMember (i : nat) (binding : Binding) (member : string)
    (bs : list Binding) : list Binding :=
  let newMembers := withoutMember member (Members binding) in
  if (length newMembers =? 0)%nat then deleteAt i bs
  else <[i := withMembers binding newMembers]> bs.

(** *** Revoke: the scan of one fetched policy

    [for i, binding := range policy.Bindings]: the first binding that
    matches both the role and the binding ID is processed, then [break]. *)
Definition revokeMatches (g : GrantedRole) (binding : Binding) : bool :=
  bool_decide (Role binding = grRole g) &&
  match Condition binding with
  | Some c => bool_decide (Title c = grBindingID g)
  | None => false
  end.

Fixpoint revokeScan (g : GrantedRole) (member : string) (i : nat)
    (todo : list Binding) (bs : list Binding) : list Binding :=
  match todo with
  | [] => bs
  | binding :: todo' =>
      if revokeMatches g binding then removeMember i binding member bs
      else revokeScan g member (S i) todo' bs
  end.

Definition revokeBindings (g : GrantedRole) (member : string)
    (bs : list Binding) : list Binding :=
  revokeScan g member 0 bs bs.

(** *** List and Clean: which members are looked at *)

(** [binding.Condition != nil && HasPrefix(binding.Condition.Title, prefix)] *)
Definition isTemporary (binding : Binding) : bool :=
  match Condition binding with
  | Some c => HasPrefix (Title c) gcpBindingTitlePrefix
  | None => false
  end.

(** [HasPrefix(member, "user:") && (user == "" || member == formatMember(user))] *)
Definition memberSelected (user member : string) : bool :=
  HasPrefix member "user:" &&
  (bool_decide (user = "") || bool_decide (member = formatMember user)).

(** The title read through the pointer once it is known not to be nil. *)
Definition conditionTitle (binding : Binding) : string :=
  match Condition binding with
  | Some c => Title c
  | None => ""
  end.

Definition conditionExpression (binding : Binding) : string :=
  match Condition binding with
  | Some c => Expression c
  | None => ""
  end.

(** *** Clean: collecting the matches, then removing them *)

(** The entry appended for a selected [member] of the binding at index [i]. *)
Definition matchOf (binding : Binding) (i : nat) (member : string)
    : temporaryBinding :=
  {| tbRole := Role binding; tbMember := member;
     tbBindingID := conditionTitle binding; tbIndex := i |}.

(** The inner loop over [binding.Members], run for the bindings with our
    condition title prefix only. *)
Definition matchesOf (user : string) (binding : Binding) (i : nat)
    : list temporaryBinding :=
  if isTemporary binding then
    matchOf binding i <$> filter (λ m, memberSelected user m) (Members binding)
  else [].

(** The outer loop, [for i, binding := range policy.Bindings], from index
    [i] on. *)
Fixpoint collectFrom (user : string) (i : nat) (bs : list Binding)
    : list temporaryBinding :=
  match bs with
  | [] => []
  | binding :: rest => matchesOf user binding i ++ collectFrom user (S i) rest
  end.

Definition collectTemporary (user : string) (bs : list Binding)
    : list temporaryBinding :=
  collectFrom user 0 bs.

(** One round of the removal loop; [None] is the index-out-of-range panic
    of [policy.Bindings[binding.Index]]. *)
Definition removeMatch (tb : temporaryBinding) (bs : list Binding)
    : option (list Binding) :=
  match bs !! tbIndex tb with
  | None => None
  | Some policyBinding =>
      Some (removeMember (tbIndex tb) policyBinding (tbMember tb) bs)
  end.

Fixpoint removeEach (todo : list temporaryBinding) (bs : list Binding)
    : option (list Binding) :=
  match todo with
  | [] => Some bs
  | tb :: todo' =>
      match removeMatch tb bs with
      | None => None
      | Some bs' => removeEach todo' bs'
      end
  end.

(** [for i := len(bindings) - 1; i >= 0; i--] *)
Definition removeInReverse (matches : list temporaryBinding)
    (bs : list Binding) : option (list Binding) :=
  removeEach (reverse matches) bs.

(** [strings.TrimPrefix(s, p)] *)
Definition TrimPrefix (s p : string) : string :=
  if HasPrefix s p then String.substring (String.length p)
                          (String.length s - String.length p) s
  else s.

(** [strings.Join(l, sep)] *)
Definition Join (l : list string) (sep : string) : string := String.concat sep l.

(** ** The world the provider runs in *)

(** A remote policy call as the service sees it. *)
Inductive Event :=
| GetIamPolicy (project : string)
| SetIamPolicy (project : string) (policy : Policy).

#[global] Instance Event_eq_dec : EqDecision Event.
Proof. solve_decision. Defined.

Inductive Level := Debug | Info | Warn.

(** An argument of a log call: a string ([%s], or an error under [%v]), a
    duration ([%v]) or an integer ([%d]). *)
Inductive LogArg :=
| S_ (s : string)
| D_ (d : Z)
| N_ (n : Z).

(** A call of [logger.Debug], [logger.Info] or [logger.Warn]: the format
    and its arguments. *)
Record LogEntry := mkLog {
  level : Level;
  format : string;
  args : list LogArg
}.

#[global] Instance Level_eq_dec : EqDecision Level.
Proof. solve_decision. Defined.
#[global] Instance LogArg_eq_dec : EqDecision LogArg.
Proof. solve_decision. Defined.
#[global] Instance LogEntry_eq_dec : EqDecision LogEntry.
Proof. solve_decision. Defined.

(** What [Userinfo.Get().Do()] on a fresh OAuth2 service comes to. *)
Inductive UserInfo :=
| NoService (err : string)
| NoUserInfo (err : string)
| Email (email : string).

(** What the program does not decide: which policy calls fail and with
    what error, the wall clock, the identity behind the credentials, and
    the RFC 3339 rendering of an instant. *)
Record Env := mkEnv {
  apiError : nat → option string;  (* the error, if any, of the k-th policy call *)
  clock : nat → nat → Z;           (* [clock k r]: what [time.Now().UnixNano()] gives at
                                      the r-th reading of the clock, k policy calls being done *)
  userinfo : UserInfo;
  rfc3339 : Z → string             (* [Format(time.RFC3339)] of the instant *)
}.

(** What changes while the program runs. *)
Record World := mkWorld {
  remote : string → Policy;        (* the policy stored for each project *)
  calls : nat;                     (* policy calls made so far *)
  reads : nat;                     (* readings of the clock made so far *)
  trace : list Event;              (* the policy calls, oldest first *)
  log : list LogEntry              (* the log lines, oldest first *)
}.

(** A returned Go [(value, error)] pair. *)
Inductive Result (A : Type) :=
| Ok (a : A)
| Err (e : string).
Arguments Ok {A} a.
Arguments Err {A} e.

(** How CleanTemporaryBindings ends: it returns an error or nil, or it
    panics. *)
Inductive Outcome :=
| Returned (err : option string)
| Panicked.

Definition logf (l : Level) (f : string) (a : list LogArg) (w : World) : World :=
  {| remote := remote w; calls := calls w; reads := reads w;
     trace := trace w; log := log w ++ [mkLog l f a] |}.

(** A policy call was made: it is counted and it shows in the trace. *)
Definition called (e : Event) (w : World) : World :=
  {| remote := remote w; calls := S (calls w); reads := reads w;
     trace := trace w ++ [e]; log := log w |}.

(** The remote side replaces the policy of [project]. *)
Definition store (project : string) (policy : Policy) (w : World) : World :=
  {| remote := λ q, if bool_decide (q = project) then policy else remote w q;
     calls := calls w; reads := reads w; trace := trace w; log := log w |}.

(** The clock was read once more. *)
Definition ticked (w : World) : World :=
  {| remote := remote w; calls := calls w; reads := S (reads w);
     trace := trace w; log := log w |}.

(** NewGCPProvider creates a new GCP provider instance; this is the
    provider it returns when the Cloud Resource Manager service can be
    created. *)
Definition NewGCPProvider (dryRun : bool) : GCPProvider :=
  {| dryRun := dryRun; grantedRoles := [] |}.

Section Provider.

Context (env : Env).

(** getCurrentUser gets the email of the currently authenticated user *)
Definition getCurrentUser : Result string :=
  match userinfo env with
  | NoService err => Err ("failed to create OAuth2 service: " +:+ err)
  | NoUserInfo err => Err ("failed to get user info: " +:+ err)
  | Email email =>
      if bool_decide (email = "") then Err "no email found in credentials"
      else Ok email
  end.

(** getIAMPolicy gets the IAM policy for a project with the required version *)
Definition getIAMPolicy (project : string) (w : World) : Result Policy * World :=
  let w' := called (GetIamPolicy project) w in
  match apiError env (calls w) with
  | Some err => (Err ("failed to get IAM policy: " +:+ err), w')
  | None =>
      let policy := remote w project in
      (* Set the policy version to support conditions *)
      (Ok {| Bindings := Bindings policy; Version := policyVersion |}, w')
  end.

(** setIAMPolicy updates the IAM policy for a project *)
Definition setIAMPolicy (project : string) (policy : Policy) (w : World)
    : option string * World :=
  let w' := called (SetIamPolicy project policy) w in
  match apiError env (calls w) with
  | Some err => (Some ("failed to set IAM policy: " +:+ err), w')
  | None => (None, store project policy w')
  end.

(** [time.Now().UnixNano()] *)
Definition UnixNano (w : World) : Z * World :=
  (clock env (calls w) (reads w), ticked w).

(** createBinding creates a new IAM binding with the specified role,
    member, and expiration.  The clock is read three times, for the expiry,
    for the binding ID and for the description. *)
Definition createBinding (role member : string) (ttl : Z) (w : World)
    : Binding * World :=
  let '(t, w) := UnixNano w in
  let expireTime := rfc3339 env (t + ttl) in
  let '(t, w) := UnixNano w in
  let bindingID := gcpBindingTitlePrefix +:+ "_" +:+ pretty t in
  let '(t, w) := UnixNano w in
  ({| Role := role;
      Members := [member];
      Condition := Some
        {| Title := bindingID;
           Description := "Temporary access granted by GTA tool at "
                          +:+ rfc3339 env t;
           Expression := "request.time < timestamp('" +:+ expireTime +:+ "')" |} |},
   w).

(** *** Grant *)

(** The body of the loop over [gcpOpts.Roles]; the state is the provider,
    [grantErrors] and the world. *)
Definition grantRole (o : GCPOptions) (member : string)
    (st : GCPProvider * list string * World) (role : string)
    : GCPProvider * list string * World :=
  let '(p, grantErrors, w) := st in
  let formattedRole := formatRole role in
  let w := logf Info "Granting role %s to %s in project %s for %v"
             [S_ formattedRole; S_ (User o); S_ (Project o); D_ (TTL o)] w in
  if dryRun p then
    (p, grantErrors,
     logf Info "[DRY-RUN] Would grant role %s to %s in project %s"
       [S_ formattedRole; S_ (User o); S_ (Project o)] w)
  else
    match getIAMPolicy (Project o) w with
    | (Err err, w) =>
        (p, grantErrors ++ ["role " +:+ formattedRole +:+ ": " +:+ err],
         logf Warn "Failed to get IAM policy for role %s: %v"
           [S_ formattedRole; S_ err] w)
    | (Ok policy, w) =>
        let '(binding, w) := createBinding formattedRole member (TTL o) w in
        let policy := withBindings policy (Bindings policy ++ [binding]) in
        match setIAMPolicy (Project o) policy w with
        | (Some err, w) =>
            (p, grantErrors ++ ["role " +:+ formattedRole +:+ ": " +:+ err],
             logf Warn "Failed to set IAM policy for role %s: %v"
               [S_ formattedRole; S_ err] w)
        | (None, w) =>
            (* Track successfully granted roles and their binding IDs *)
            ({| dryRun := dryRun p;
                grantedRoles := grantedRoles p ++
                  [{| grRole := formattedRole;
                      grBindingID := conditionTitle binding |}] |},
             grantErrors, w)
        end
    end.

(** [gcpOpts.User = user] through the pointer the caller keeps. *)
Definition withUser (o : GCPOptions) (user : string) : GCPOptions :=
  {| Project := Project o; Roles := Roles o; User := user; TTL := TTL o |}.

(** Grant grants temporary access to the specified roles in the specified
    project.  It returns the error, the options as the caller sees them
    afterwards, the provider and the world. *)
Definition Grant (p : GCPProvider) (opts : Options) (w : World)
    : option string * Options * GCPProvider * World :=
  match opts with
  | OfOther => (Some "invalid options type", opts, p, w)
  | OfGCP o =>
      let resolved :=
        if bool_decide (User o = "") then
          match getCurrentUser with
          | Err err => Err ("failed to get current user: " +:+ err)
          | Ok user => Ok (withUser o user, logf Debug "Using current user: %s" [S_ user] w)
          end
        else Ok (o, w) in
      match resolved with
      | Err err => (Some err, opts, p, w)
      | Ok (o, w) =>
          let member := formatMember (User o) in
          let '(p, grantErrors, w) :=
            foldl (grantRole o member) (p, [], w) (Roles o) in
          if (0 <? length grantErrors)%nat then
            if (length (grantedRoles p) =? 0)%nat then
              (* If no roles were granted, return an error *)
              (Some ("failed to grant any roles: " +:+ Join grantErrors "; "),
               OfGCP o, p, w)
            else
              (* If some roles were granted, just log the errors *)
              (None, OfGCP o, p,
               logf Warn "Failed to grant some roles: %s"
                 [S_ (Join grantErrors "; ")] w)
          else (None, OfGCP o, p, w)
      end
  end.

(** *** Revoke *)

(** The body of the loop over [p.grantedRoles]; the state is
    [revokeErrors] and the world. *)
Definition revokeRole (p : GCPProvider) (o : GCPOptions) (member : string)
    (st : list string * World) (grantedRole : GrantedRole)
    : list string * World :=
  let '(revokeErrors, w) := st in
  let w := logf Info "Revoking role %s from %s in project %s"
             [S_ (grRole grantedRole); S_ (User o); S_ (Project o)] w in
  if dryRun p then
    (revokeErrors,
     logf Info "[DRY-RUN] Would revoke role %s from %s in project %s"
       [S_ (grRole grantedRole); S_ (User o); S_ (Project o)] w)
  else
    match getIAMPolicy (Project o) w with
    | (Err err, w) =>
        (revokeErrors ++ ["role " +:+ grRole grantedRole +:+ ": " +:+ err],
         logf Warn "Failed to get IAM policy for role %s: %v"
           [S_ (grRole grantedRole); S_ err] w)
    | (Ok policy, w) =>
        let policy :=
          withBindings policy (revokeBindings grantedRole member (Bindings policy)) in
        match setIAMPolicy (Project o) policy w with
        | (Some err, w) =>
            (revokeErrors ++ ["role " +:+ grRole grantedRole +:+ ": " +:+ err],
             logf Warn "Failed to set IAM policy for role %s: %v"
               [S_ (grRole grantedRole); S_ err] w)
        | (None, w) => (revokeErrors, w)
        end
    end.

(** Revoke revokes temporary access from the specified roles in the
    specified project *)
Definition Revoke (p : GCPProvider) (opts : Options) (w : World)
    : option string * World :=
  match opts with
  | OfOther => (Some "invalid options type", w)
  | OfGCP o =>
      (* Use only the successfully granted roles for revocation *)
      if (length (grantedRoles p) =? 0)%nat then
        (None, logf Info "No roles to revoke" [] w)
      else
        let member := formatMember (User o) in
        let '(revokeErrors, w) :=
          foldl (revokeRole p o member) ([], w) (grantedRoles p) in
        if (0 <? length revokeErrors)%nat then
          (None, logf Warn "Failed to revoke some roles: %s"
                   [S_ (Join revokeErrors "; ")] w)
        else (None, w)
  end.

(** *** ListTemporaryBindings *)

(** The inner loop over [binding.Members]; the state is [found] and the
    world. *)
Definition listMember (user : string) (binding : Binding)
    (st : bool * World) (member : string) : bool * World :=
  if memberSelected user member then
    (true,
     logf Info "Found temporary binding: Role=%s, Member=%s, Expires=%s, ID=%s"
       [S_ (Role binding); S_ member;
        S_ (TrimPrefix (TrimPrefix (conditionExpression binding)
                          "request.time < timestamp('") "')");
        S_ (conditionTitle binding)] st.2)
  else st.

(** The outer loop over [policy.Bindings]. *)
Definition listBinding (user : string) (st : bool * World) (binding : Binding)
    : bool * World :=
  (* Only show bindings with our condition title prefix *)
  if negb (isTemporary binding) then st
  else foldl (listMember user binding) st (Members binding).

(** ListTemporaryBindings lists temporary bindings for the specified project *)
Definition ListTemporaryBindings (p : GCPProvider) (opts : Options) (w : World)
    : option string * World :=
  match opts with
  | OfOther => (Some "invalid options type", w)
  | OfGCP o =>
      match getIAMPolicy (Project o) w with
      | (Err err, w) => (Some ("failed to get IAM policy: " +:+ err), w)
      | (Ok policy, w) =>
          let '(found, w) :=
            foldl (listBinding (User o)) (false, w) (Bindings policy) in
          if negb found then (None, logf Info "No temporary bindings found" [] w)
          else (None, w)
      end
  end.

(** *** CleanTemporaryBindings *)

(** The loop that lists all bindings that will be affected. *)
Definition announce (p : GCPProvider) (w : World) (binding : temporaryBinding)
    : World :=
  if dryRun p then
    logf Info "[DRY-RUN] Would remove binding: Role=%s, Member=%s, ID=%s"
      [S_ (tbRole binding); S_ (tbMember binding); S_ (tbBindingID binding)] w
  else
    logf Info "Found binding to remove: Role=%s, Member=%s, ID=%s"
      [S_ (tbRole binding); S_ (tbMember binding); S_ (tbBindingID binding)] w.

(** The removal loop with its log lines; [todo] is the matches still to
    process, last match first. *)
Fixpoint removeLoop (todo : list temporaryBinding) (bs : list Binding)
    (w : World) : option (list Binding) * World :=
  match todo with
  | [] => (Some bs, w)
  | binding :: todo' =>
      let w := logf Info "Removing binding: Role=%s, Member=%s"
                 [S_ (tbRole binding); S_ (tbMember binding)] w in
      match removeMatch binding bs with
      | None => (None, w)
      | Some bs' => removeLoop todo' bs' w
      end
  end.

(** CleanTemporaryBindings lists and optionally removes temporary bindings
    for the specified project *)
Definition CleanTemporaryBindings (p : GCPProvider) (opts : Options) (w : World)
    : Outcome * World :=
  match opts with
  | OfOther => (Returned (Some "invalid options type"), w)
  | OfGCP o =>
      match getIAMPolicy (Project o) w with
      | (Err err, w) => (Returned (Some ("failed to get IAM policy: " +:+ err)), w)
      | (Ok policy, w) =>
          (* First, find all temporary bindings *)
          let bindings := collectTemporary (User o) (Bindings policy) in
          if (length bindings =? 0)%nat then
            (Returned None, logf Info "No temporary bindings found" [] w)
          else
            (* List all bindings that will be affected *)
            let w := foldl (announce p) w bindings in
            if dryRun p then (Returned None, w)
            else
              (* Remove the bindings, in reverse order *)
              match removeLoop (reverse bindings) (Bindings policy) w with
              | (None, w) => (Panicked, w)
              | (Some bs, w) =>
                  match setIAMPolicy (Project o) (withBindings policy bs) w with
                  | (Some err, w) =>
                      (Returned (Some ("failed to update IAM policy: " +:+ err)), w)
                  | (None, w) =>
                      (Returned None,
                       logf Info "Successfully cleaned up %d temporary binding(s)"
                         [N_ (Z.of_nat (length bindings))] w)
                  end
              end
      end
  end.

End Provider.

#[global] Arguments getIAMPolicy : simpl never.
#[global] Arguments setIAMPolicy : simpl never.
#[global] Arguments createBinding : simpl never.
#[global] Arguments grantRole : simpl never.
#[global] Arguments revokeRole : simpl never.
#[global] Arguments listMember : simpl never.
#[global] Arguments listBinding : simpl never.
#[global] Arguments announce : simpl never.

(** ** The stable way to clean, after the design notes

    Collect the matches by identity, then rebuild the collection: a binding
    that is not temporary, or none of whose members is selected, is kept as
    it is; otherwise the selected members are left out, and the binding
    goes when nothing is left. *)
Definition rebuildBinding (user : string) (binding : Binding) : option Binding :=
  if isTemporary binding then
    let selected := filter (λ m, memberSelected user m) (Members binding) in
    let kept := filter (λ m, ¬ memberSelected user m) (Members binding) in
    match selected, kept with
    | [], _ => Some binding
    | _ :: _, [] => None
    | _ :: _, _ :: _ => Some (withMembers binding kept)
    end
  else Some binding.

Definition rebuildBindings (user : string) (bs : list Binding) : list Binding :=
  omap (rebuildBinding user) bs.

(** ** Example environments and worlds *)

(** No policy call fails; the clock advances by a microsecond per policy
    call and, in between, by a nanosecond per reading for 999 readings; the
    credentials are those of [a@example.com]. *)
Definition calmEnv : Env :=
  {| apiError := λ _, None;
     clock := λ k r, 1000 * Z.of_nat k + Z.of_nat (r `min` 999);
     userinfo := Email "a@example.com";
     rfc3339 := λ t, pretty t |}.

(** The same, but the remote side answers the first two policy calls only. *)
Definition flakyEnv : Env :=
  {| apiError := λ k, if (k <? 2)%nat then None else Some "unavailable";
     clock := clock calmEnv;
     userinfo := userinfo calmEnv;
     rfc3339 := rfc3339 calmEnv |}.

(** As [calmEnv], but the clock stands still: every reading is 42. *)
Definition frozenEnv : Env :=
  {| apiError := apiError calmEnv;
     clock := λ _ _, 42;
     userinfo := userinfo calmEnv;
     rfc3339 := rfc3339 calmEnv |}.

(** Every project has an empty policy of version 1; nothing has happened. *)
Definition freshWorld : World :=
  {| remote := λ _, {| Bindings := []; Version := 1 |};
     calls := 0; reads := 0; trace := []; log := [] |}.

(** * Vocabulary of the properties *)

(** ** Removing a member *)


(** ** The bindings of the session and those of others *)

(** Some grant recorded in the session names the role and the condition
    title of the binding. *)
Definition ownedBy (grs : list GrantedRole) (binding : Binding) : bool :=
  existsb (λ g, revokeMatches g binding) grs.

(** The bindings of a policy that no recorded grant names, in order. *)
Definition foreign (grs : list GrantedRole) (bs : list Binding) : list Binding :=
  filter (λ b, ¬ ownedBy grs b) bs.

(** ** Members as sets *)

(** The members of a binding are a set: no binding of the policy lists a
    member twice. *)
Definition membersAreSets (bs : list Binding) : Prop :=
  ∀ b, b ∈ bs → NoDup (Members b).

(** ** What a completed removal loop leaves behind *)

(** No temporary binding of [bs] has a selected member. *)
Definition settled (user : string) (bs : list Binding) : Prop :=
  Forall (λ b, isTemporary b = true →
               Forall (λ m, ¬ memberSelected user m) (Members b)) bs.

(** What the rounds at one index need of the bindings from that index on:
    the tail is settled, and the selected members of the head are all still
    to be processed. *)
Definition headPending (user : string) (pending : list string)
    (cur : list Binding) : Prop :=
  match cur with
  | [] => True
  | b :: t =>
      settled user t ∧
      (isTemporary b = true →
       ∀ m, m ∈ Members b → memberSelected user m → m ∈ pending)
  end.

(** ** Policy calls in the trace *)

(** Between [w] and [w'] the trace grew by events that all satisfy [P]. *)
Definition emits (P : Event → Prop) (w w' : World) : Prop :=
  ∃ evs, trace w' = trace w ++ evs ∧ Forall P evs.

(** A write carries the version that enables conditional bindings. *)
Definition carriesVersion (e : Event) : Prop :=
  match e with
  | SetIamPolicy _ policy => Version policy = policyVersion
  | GetIamPolicy _ => True
  end.

(** The event is a fetch. *)
Definition isFetch (e : Event) : Prop :=
  match e with
  | GetIamPolicy _ => True
  | SetIamPolicy _ _ => False
  end.

#[global] Instance isFetch_dec e : Decision (isFetch e).
Proof. destruct e; simpl; apply _. Defined.

(** The policies of the set-policy calls among [evs] that the remote side
    accepted, [k] being the number of the first call of [evs]. *)
Fixpoint okWrites (env : Env) (k : nat) (evs : list Event) : list Policy :=
  match evs with
  | [] => []
  | e :: evs' =>
      match e, apiError env k with
      | SetIamPolicy _ policy, None => [policy]
      | _, _ => []
      end ++ okWrites env (S k) evs'
  end.

(** A write hands over the foreign bindings that were stored for its
    project in [w0]. *)
Definition keepsForeign (grs : list GrantedRole) (w0 : World) (e : Event) : Prop :=
  match e with
  | SetIamPolicy project policy =>
      foreign grs (Bindings policy) = foreign grs (Bindings (remote w0 project))
  | GetIamPolicy _ => True
  end.

(** What the loop of Revoke keeps from round to round. *)
Definition revokeKeeps (grs : list GrantedRole) (w0 : World)
    (st : list string * World) : Prop :=
  emits (keepsForeign grs w0) w0 st.2 ∧
  ∀ project, foreign grs (Bindings (remote st.2 project))
             = foreign grs (Bindings (remote w0 project)).

(** The bindings Grant created, as the remote side gets to see them: each
    one is the last binding of the policy of a set-policy call. *)
Definition createdIn (evs : list Event) : list Binding :=
  omap (λ e, match e with
             | SetIamPolicy _ policy => last (Bindings policy)
             | GetIamPolicy _ => None
             end) evs.

(** ** Worlds that differ by log lines, and the lines themselves *)

(** Only log lines separate [w'] from [w]. *)
Definition onlyLogged (w w' : World) : Prop :=
  remote w' = remote w ∧ calls w' = calls w ∧ reads w' = reads w ∧
  trace w' = trace w.

(** The line Clean logs for a match in dry-run mode. *)
Definition wouldRemove (tb : temporaryBinding) : LogEntry :=
  mkLog Info "[DRY-RUN] Would remove binding: Role=%s, Member=%s, ID=%s"
    [S_ (tbRole tb); S_ (tbMember tb); S_ (tbBindingID tb)].

(** The line List logs for [member] of [binding]. *)
Definition foundLine (binding : Binding) (member : string) : LogEntry :=
  mkLog Info "Found temporary binding: Role=%s, Member=%s, Expires=%s, ID=%s"
    [S_ (Role binding); S_ member;
     S_ (TrimPrefix (TrimPrefix (conditionExpression binding)
                       "request.time < timestamp('") "')");
     S_ (conditionTitle binding)].

(** A line of List: nothing was found, or a user member of a temporary
    binding of [bs] was. *)
Definition reportsUser (bs : list Binding) (line : LogEntry) : Prop :=
  line = mkLog Info "No temporary bindings found" [] ∨
  ∃ b m, b ∈ bs ∧ isTemporary b = true ∧ m ∈ Members b ∧
         HasPrefix m "user:" = true ∧ line = foundLine b m.

(** What the loops of List keep: the log grew by lines of List. *)
Definition listed (bs : list Binding) (w0 : World) (st : bool * World) : Prop :=
  ∃ lines, log st.2 = log w0 ++ lines ∧ Forall (reportsUser bs) lines.

(** ** The user and the clock *)

(** The identity Grant works for is known: a user was given, or the
    credentials resolve to one. *)
Definition userResolvable (env : Env) (o : GCPOptions) : Prop :=
  User o ≠ "" ∨ ∃ user, getCurrentUser env = Ok user.

(** A reading of the clock taken after more policy calls is later: a
    policy call takes time. *)
Definition clockAdvances (env : Env) : Prop :=
  ∀ k k' r r', (k < k')%nat → clock env k r < clock env k' r'.

(** The title made from the reading [stamp.2] of the clock, [stamp.1]
    policy calls being done: the marker, an underscore, the nanoseconds. *)
Definition titleAt (env : Env) (stamp : nat * nat) : string :=
  gcpBindingTitlePrefix +:+ "_" +:+ pretty (clock env stamp.1 stamp.2).

(** ** The progress of the loop of Grant *)

(** What the rounds of Grant have done since the loop was entered in
    [(p0, w0)]: [evs] are the policy calls, [errs] the errors collected and
    [granted] the grants recorded. *)
Record grantProgress (env : Env) (p0 : GCPProvider) (w0 : World) (rounds : nat)
    (st : GCPProvider * list string * World)
    (evs : list Event) (granted : list GrantedRole) : Prop := {
  gp_dryRun : dryRun st.1.1 = dryRun p0;
  gp_trace : trace st.2 = trace w0 ++ evs;
  gp_calls : calls st.2 = (calls w0 + length evs)%nat;
  gp_granted : grantedRoles st.1.1 = grantedRoles p0 ++ granted;
  gp_fetches : length (filter isFetch evs) = rounds;
  gp_writes : length granted = length (okWrites env (calls w0) evs);
  gp_errors : (length st.1.2 + length granted)%nat = rounds
}.

(** What the rounds of Grant have created since the loop was entered in
    [(p0, w0)]. *)
Record titleProgress (env : Env) (p0 : GCPProvider) (w0 : World)
    (st : GCPProvider * list string * World)
    (evs : list Event) (stamps : list (nat * nat))
    (granted : list GrantedRole) : Prop := {
  tp_trace : trace st.2 = trace w0 ++ evs;
  tp_calls : (calls w0 ≤ calls st.2)%nat;
  tp_titles : conditionTitle <$> createdIn evs = titleAt env <$> stamps;
  tp_stamps : Forall (λ stamp, (calls w0 < stamp.1 < calls st.2)%nat) stamps;
  tp_nodup : NoDup (conditionTitle <$> createdIn evs);
  tp_granted : grantedRoles st.1.1 = grantedRoles p0 ++ granted;
  tp_recorded : sublist (grBindingID <$> granted)
                        (conditionTitle <$> createdIn evs)
}.

(** ** Example policies and runs *)

(** A temporary binding that lists one user twice. *)
Definition twice : Binding :=
  {| Role := "roles/viewer";
     Members := ["user:a@example.com"; "user:a@example.com"];
     Condition := Some {| Title := "gta_temporary_access_17";
                          Description := ""; Expression := "" |} |}.

(** An unconditional binding of two users. *)
Definition permanent : Binding :=
  {| Role := "roles/owner";
     Members := ["user:a@example.com"; "user:b@example.com"];
     Condition := None |}.

(** A temporary binding of two users. *)
Definition shared : Binding :=
  withMembers twice ["user:a@example.com"; "user:b@example.com"].

(** A temporary binding of one service account. *)
Definition robots : Binding :=
  {| Role := "roles/editor";
     Members := ["serviceAccount:ci@example.iam.gserviceaccount.com"];
     Condition := Some {| Title := "gta_temporary_access_23";
                          Description := ""; Expression := "" |} |}.

(** [permanent] and [shared] are stored for project [p]; Clean is asked to
    remove [b@example.com]. *)
Definition storedWorld : World :=
  store "p" (mkPolicy [permanent; shared] 1) freshWorld.

Definition cleanB : Options := OfGCP (mkOptions "p" [] "b@example.com" 0).

(** The world the first run of Clean leaves. *)
Definition cleanedOnce : World :=
  (CleanTemporaryBindings calmEnv (NewGCPProvider false) cleanB storedWorld).2.



(** * Vocabulary of the further properties *)

(** ** What Grant stores and records *)

(** The grant recorded for a created binding. *)
Definition grantOf (b : Binding) : GrantedRole :=
  {| grRole := Role b; grBindingID := conditionTitle b |}.

(** A policy call of Grant for [project]: a fetch of the project, or a
    write of a policy that begins with the bindings [bs0]. *)
Definition appendsTo (project : string) (bs0 : list Binding) (e : Event) : Prop :=
  match e with
  | GetIamPolicy q => q = project
  | SetIamPolicy q policy => q = project ∧ bs0 `prefix_of` Bindings policy
  end.

(** A binding as Grant makes it for [member]: one member, a prefixed role,
    a marked condition title. *)
Definition grantedTo (member : string) (b : Binding) : Prop :=
  Members b = [member] ∧ isTemporary b = true ∧
  HasPrefix (Role b) rolePrefix = true.

(** What the rounds of Grant have stored since the loop was entered in
    [(p0, w0)]: the bindings [created], after those the project had. *)
Record grantStored (o : GCPOptions) (member : string)
    (p0 : GCPProvider) (w0 : World)
    (st : GCPProvider * list string * World) (created : list Binding) : Prop := {
  gs_remote : Bindings (remote st.2 (Project o))
              = Bindings (remote w0 (Project o)) ++ created;
  gs_others : ∀ q, q ≠ Project o → remote st.2 q = remote w0 q;
  gs_granted : grantedRoles st.1.1 = grantedRoles p0 ++ (grantOf <$> created);
  gs_created : Forall (grantedTo member) created;
  gs_writes : emits (appendsTo (Project o) (Bindings (remote w0 (Project o))))
                w0 st.2;
  gs_dryRun : dryRun st.1.1 = dryRun p0
}.

(** From call number [k] on, no policy call fails. *)
Definition reliableFrom (env : Env) (k : nat) : Prop :=
  ∀ k', (k ≤ k')%nat → apiError env k' = None.

(** ** Further example runs *)

(** [permanent] is all project [p] has; two roles are granted to the user
    of the credentials. *)
Definition ownerWorld : World :=
  store "p" (mkPolicy [permanent] 1) freshWorld.

Definition twoRoles : GCPOptions := mkOptions "p" ["viewer"; "editor"] "" 3600.

(** ** What List reports *)

(** The line is the one List logs for the match [tb] collected from index
    [i] on: [tb] points, [i] places before, at a binding of [bs] whose
    role and condition title it carries, and the line is the found-line of
    that binding and the member of [tb]. *)
Definition reportsMatch (i : nat) (bs : list Binding)
    (line : LogEntry) (tb : temporaryBinding) : Prop :=
  ∃ b, bs !! (tbIndex tb - i)%nat = Some b ∧ (i ≤ tbIndex tb)%nat ∧
       tbRole tb = Role b ∧ tbBindingID tb = conditionTitle b ∧
       line = foundLine b (tbMember tb).

(** * Properties *)

(** ** Removing a member from a binding *)

Section Removal.

Implicit Types (bs : list Binding) (binding : Binding) (member : string).


Lemma withMembers_same binding : withMembers binding (Members binding) = binding.
Proof. by destruct binding. Qed.

Lemma withoutMember_absent member ms :
  member ∉ ms → withoutMember member ms = ms.
Proof.
  unfold withoutMember. induction ms as [|m ms IH]; [done|].
  intros Hnot. rewrite not_elem_of_cons in Hnot. destruct Hnot as [Hne Hnot].
  rewrite filter_cons_True by congruence. by rewrite IH.
Qed.

(** What the shared body does at position [i], in terms of the list. *)
Lemma removeMember_spec i binding member bs :
  bs !! i = Some binding →
  removeMember i binding member bs =
    match withoutMember member (Members binding) with
    | [] => take i bs ++ drop (S i) bs
    | newMembers => take i bs ++ withMembers binding newMembers :: drop (S i) bs
    end.
Proof.
  intros Hi. unfold removeMember.
  destruct (withoutMember member (Members binding)) as [|m ms] eqn:E; [done|].
  simpl. apply insert_take_drop. by eapply lookup_lt_Some.
Qed.

(** The scan of Revoke stops at the first binding that matches. *)
Lemma revokeScan_first g member todo : ∀ i bs j binding,
  todo !! j = Some binding →
  revokeMatches g binding = true →
  (∀ k b, (k < j)%nat → todo !! k = Some b → revokeMatches g b = false) →
  revokeScan g member i todo bs = removeMember (i + j) binding member bs.
Proof.
  induction todo as [|b todo IH]; intros i bs j binding Hj Hm Hbefore; [done|].
  destruct j as [|j]; simpl in *.
  - injection Hj as ->. rewrite Hm. by rewrite Nat.add_0_r.
  - rewrite (Hbefore 0%nat b) by (done || lia).
    rewrite (IH (S i) bs j binding Hj Hm).
    + f_equal. lia.
    + intros k b' Hk Hb'. apply (Hbefore (S k) b'); [lia|done].
Qed.

(** When no binding matches, the scan leaves the policy as it is. *)
Lemma revokeScan_none g member todo : ∀ i bs,
  (∀ b, b ∈ todo → revokeMatches g b = false) →
  revokeScan g member i todo bs = bs.
Proof.
  induction todo as [|b todo IH]; intros i bs Hall; [done|]. simpl.
  rewrite (Hall b) by left. apply IH. intros b' Hb'. apply Hall. by right.
Qed.

End Removal.



(** ** Revoke touches the session's own grants only *)

Section RevokeFrame.

Lemma ownedBy_elem grs g binding :
  g ∈ grs → revokeMatches g binding = true → ownedBy grs binding = true.
Proof.
  intros Hg Hm. unfold ownedBy. apply existsb_exists. exists g.
  by rewrite <- list_elem_of_In.
Qed.

Lemma revokeMatches_withMembers g binding ms :
  revokeMatches g (withMembers binding ms) = revokeMatches g binding.
Proof. done. Qed.

Lemma ownedBy_withMembers grs binding ms :
  ownedBy grs (withMembers binding ms) = ownedBy grs binding.
Proof. done. Qed.

Lemma foreign_split grs bs i binding :
  bs !! i = Some binding → ownedBy grs binding = true →
  foreign grs bs = foreign grs (take i bs) ++ foreign grs (drop (S i) bs).
Proof.
  intros Hi Hown. rewrite <- (take_drop_middle bs i binding Hi) at 1.
  unfold foreign. rewrite filter_app, filter_cons_False; [done|].
  rewrite Hown. intros H. by apply H.
Qed.

Lemma foreign_removeMember grs i binding member bs :
  bs !! i = Some binding → ownedBy grs binding = true →
  foreign grs (removeMember i binding member bs) = foreign grs bs.
Proof.
  intros Hi Hown. rewrite (removeMember_spec _ _ _ _ Hi).
  rewrite (foreign_split grs bs i binding Hi Hown).
  destruct (withoutMember member (Members binding)) as [|m ms];
    unfold foreign; rewrite filter_app; [done|].
  rewrite filter_cons_False; [done|].
  rewrite ownedBy_withMembers, Hown. intros H. by apply H.
Qed.

(** Either some binding is the first to match, or none matches. *)
Lemma first_match g (todo : list Binding) :
  (∃ j binding, todo !! j = Some binding ∧ revokeMatches g binding = true ∧
     ∀ k b, (k < j)%nat → todo !! k = Some b → revokeMatches g b = false) ∨
  (∀ b, b ∈ todo → revokeMatches g b = false).
Proof.
  induction todo as [|b todo IH]; [right; intros b Hb; inversion Hb|].
  destruct (revokeMatches g b) eqn:Hb.
  - left. exists 0%nat, b. repeat split; [done|]. intros k b' Hk. lia.
  - destruct IH as [(j & binding & Hj & Hm & Hbefore)|Hnone].
    + left. exists (S j), binding. repeat split; [done..|].
      intros [|k] b' Hk Hb'; simpl in Hb'; [by injection Hb' as <-|].
      apply (Hbefore k); [lia|done].
    + right. intros b' [->|Hb']%elem_of_cons; auto.
Qed.

Lemma foreign_revokeBindings grs g member bs :
  g ∈ grs → foreign grs (revokeBindings g member bs) = foreign grs bs.
Proof.
  intros Hg. unfold revokeBindings.
  destruct (first_match g bs) as [(j & binding & Hj & Hm & Hbefore)|Hnone].
  - rewrite (revokeScan_first g member bs 0 bs j binding Hj Hm Hbefore).
    apply foreign_removeMember; [done|]. by eapply ownedBy_elem.
  - by rewrite revokeScan_none.
Qed.

End RevokeFrame.

(** ** Clean: the removal loop against the rebuilt collection *)

Section CleanLoop.

Implicit Types (bs pre rest : list Binding) (steps : list temporaryBinding).

Lemma filter_iff_in {A} (P Q : A → Prop) `{!∀ x, Decision (P x)}
    `{!∀ x, Decision (Q x)} (l : list A) :
  (∀ x, x ∈ l → P x ↔ Q x) → filter P l = filter Q l.
Proof.
  induction l as [|a l IH]; [done|]. intros Hiff.
  rewrite !filter_cons, IH by (intros x Hx; apply Hiff; by right).
  apply decide_ext, Hiff. left.
Qed.

Lemma filter_notin_nil (l : list string) : filter (λ x, x ∉ []) l = l.
Proof.
  induction l as [|x l IH]; [done|].
  rewrite filter_cons_True, IH; [done|]. intros Hx. inversion Hx.
Qed.

Lemma removeEach_app steps1 steps2 bs :
  removeEach (steps1 ++ steps2) bs =
    match removeEach steps1 bs with
    | Some bs' => removeEach steps2 bs'
    | None => None
    end.
Proof.
  revert bs. induction steps1 as [|tb steps1 IH]; intros bs; [done|]. simpl.
  destruct (removeMatch tb bs); [apply IH|done].
Qed.

(** A round whose index is the length of [pre] works on the binding that
    follows [pre]. *)
Lemma removeMatch_head pre binding rest tb :
  tbIndex tb = length pre →
  removeMatch tb (pre ++ binding :: rest) =
    Some (pre ++ match withoutMember (tbMember tb) (Members binding) with
                 | [] => rest
                 | ms => withMembers binding ms :: rest
                 end).
Proof.
  intros Hidx. unfold removeMatch. rewrite Hidx.
  rewrite list_lookup_middle by done.
  rewrite removeMember_spec by (by apply list_lookup_middle).
  rewrite take_app_length.
  replace (drop (S (length pre)) (pre ++ binding :: rest)) with rest
    by (rewrite (cons_middle binding), app_assoc;
        symmetry; apply drop_app_length'; rewrite length_app; simpl; lia).
  by destruct (withoutMember (tbMember tb) (Members binding)).
Qed.

(** And it panics when nothing follows [pre]. *)
Lemma removeMatch_end pre tb :
  tbIndex tb = length pre → removeMatch tb pre = None.
Proof.
  intros Hidx. unfold removeMatch. rewrite Hidx.
  by rewrite lookup_ge_None_2.
Qed.

Lemma withMembers_withMembers binding ms ms' :
  withMembers (withMembers binding ms) ms' = withMembers binding ms'.
Proof. done. Qed.

(** Rounds at one index whose members are pairwise distinct members of the
    binding there: each takes its member out, and only the last one can
    empty the binding. *)
Lemma removeEach_head_distinct pre rest steps : ∀ binding,
  Forall (λ tb, tbIndex tb = length pre) steps →
  NoDup (tbMember <$> steps) →
  (∀ tb, tb ∈ steps → tbMember tb ∈ Members binding) →
  removeEach steps (pre ++ binding :: rest) =
    Some (pre ++
      match steps with
      | [] => binding :: rest
      | _ :: _ =>
          match filter (λ m, m ∉ tbMember <$> steps) (Members binding) with
          | [] => rest
          | ms => withMembers binding ms :: rest
          end
      end).
Proof.
  induction steps as [|tb steps IH]; intros binding Hidx Hnd Hin; [done|].
  apply Forall_cons in Hidx as [Hidx Hidxs].
  rewrite fmap_cons in Hnd. apply NoDup_cons in Hnd as [Hfresh Hnd].
  simpl removeEach. rewrite removeMatch_head by done.
  assert (Hone : filter (λ m, m ∉ tbMember <$> (tb :: steps)) (Members binding) =
            filter (λ m, m ∉ tbMember <$> steps)
              (withoutMember (tbMember tb) (Members binding))).
  { unfold withoutMember. rewrite list_filter_filter. apply list_filter_iff.
    intros m. rewrite fmap_cons, not_elem_of_cons. tauto. }
  assert (Hrest : ∀ tb', tb' ∈ steps →
            tbMember tb' ∈ withoutMember (tbMember tb) (Members binding)).
  { intros tb' Htb'. unfold withoutMember. rewrite list_elem_of_filter. split.
    - intros Heq. apply Hfresh. rewrite <- Heq. by apply list_elem_of_fmap_2.
    - apply Hin. by right. }
  destruct (withoutMember (tbMember tb) (Members binding)) as [|m ms] eqn:E.
  - destruct steps as [|tb' steps].
    + by rewrite Hone.
    + specialize (Hrest tb' ltac:(left)). inversion Hrest.
  - rewrite (IH (withMembers binding (m :: ms)) Hidxs Hnd Hrest).
    rewrite Hone. simpl Members. destruct steps as [|tb' steps].
    + simpl removeEach.
      by rewrite fmap_nil, filter_notin_nil.
    + by destruct (filter _ (m :: ms)).
Qed.

End CleanLoop.

Section CleanRebuild.

Implicit Types (bs pre rest : list Binding) (steps : list temporaryBinding).

Lemma matchesOf_index user binding i :
  Forall (λ tb, tbIndex tb = i) (matchesOf user binding i).
Proof.
  unfold matchesOf. destruct (isTemporary binding); [|constructor].
  apply Forall_fmap, Forall_forall. done.
Qed.

Lemma matchesOf_members user binding i :
  tbMember <$> matchesOf user binding i =
    if isTemporary binding
    then filter (λ m, memberSelected user m) (Members binding) else [].
Proof.
  unfold matchesOf. destruct (isTemporary binding); [|done].
  rewrite <- list_fmap_compose. apply list_fmap_id.
Qed.

(** The rounds of one binding, against what the rebuild does with it. *)
Lemma removeEach_rebuildBinding user pre binding rest :
  (isTemporary binding = true →
     NoDup (filter (λ m, memberSelected user m) (Members binding))) →
  removeEach (reverse (matchesOf user binding (length pre)))
      (pre ++ binding :: rest) =
    Some (pre ++ match rebuildBinding user binding with
                 | Some b => b :: rest
                 | None => rest
                 end).
Proof.
  intros Hnd.
  rewrite removeEach_head_distinct.
  - unfold rebuildBinding.
    pose proof (matchesOf_members user binding (length pre)) as Hms.
    destruct (isTemporary binding) eqn:Htemp.
    + assert (Hkept :
        filter (λ m, m ∉ tbMember <$> reverse (matchesOf user binding (length pre)))
          (Members binding)
        = filter (λ m, ¬ memberSelected user m) (Members binding)).
      { apply filter_iff_in. intros m Hm.
        rewrite fmap_reverse, elem_of_reverse, Hms, list_elem_of_filter. tauto. }
      rewrite Hkept.
      destruct (filter (λ m, memberSelected user m) (Members binding))
        as [|s sel] eqn:Hsel.
      * apply fmap_nil_inv in Hms. by rewrite Hms.
      * destruct (reverse (matchesOf user binding (length pre))) as [|tb steps] eqn:Hrev.
        { apply (f_equal length) in Hrev. rewrite length_reverse in Hrev.
          apply (f_equal length) in Hms. rewrite length_fmap in Hms.
          simpl in *. lia. }
        by destruct (filter (λ m, ¬ memberSelected user m) (Members binding)).
    + apply fmap_nil_inv in Hms. by rewrite Hms.
  - apply Forall_reverse, matchesOf_index.
  - rewrite fmap_reverse, reverse_Permutation, matchesOf_members.
    destruct (isTemporary binding); [by apply Hnd|constructor].
  - intros tb Htb. rewrite elem_of_reverse in Htb.
    apply (list_elem_of_fmap_2 tbMember) in Htb.
    rewrite matchesOf_members in Htb. destruct (isTemporary binding).
    + by apply list_elem_of_filter in Htb as [_ ?].
    + inversion Htb.
Qed.

Lemma removeEach_rebuildBindings user rest : ∀ pre,
  Forall (λ b, isTemporary b = true →
               NoDup (filter (λ m, memberSelected user m) (Members b))) rest →
  removeEach (reverse (collectFrom user (length pre) rest)) (pre ++ rest) =
    Some (pre ++ rebuildBindings user rest).
Proof.
  induction rest as [|binding rest IH]; intros pre Hnd.
  - done.
  - apply Forall_cons in Hnd as [Hb Hnd]. simpl collectFrom.
    rewrite reverse_app, removeEach_app.
    specialize (IH (pre ++ [binding]) Hnd).
    rewrite length_app, Nat.add_1_r, <- app_assoc in IH. simpl in IH.
    rewrite IH, <- app_assoc. simpl.
    rewrite (removeEach_rebuildBinding user pre binding _ Hb).
    unfold rebuildBindings. simpl. by destruct (rebuildBinding user binding).
Qed.

(** The world only gets log lines in the removal loop. *)
Lemma removeLoop_bindings steps : ∀ bs w,
  (removeLoop steps bs w).1 = removeEach steps bs.
Proof.
  induction steps as [|tb steps IH]; intros bs w; [done|]. simpl.
  destruct (removeMatch tb bs); [apply IH|done].
Qed.

End CleanRebuild.

(** Outside the data model, where a binding lists a member twice, the
    two ways part.  The policy is the temporary binding [twice] followed
    by the unconditional binding [permanent].  Two matches are collected,
    both with index 0.  The first round empties [twice] and
    deletes it; the second round then finds [permanent] at index 0 and takes
    the member out of it, where the rebuilt collection keeps [permanent] as
    it is.  With [twice] alone in the policy the second round indexes an
    empty list and panics.  CleanTemporaryBindings accordingly stores the
    altered [permanent] in the first case and panics in the second. *)
Lemma reverse_removal_differs_on_repeated_member :
  removeInReverse (collectTemporary "" [twice; permanent]) [twice; permanent]
    = Some [withMembers permanent ["user:b@example.com"]] ∧
  rebuildBindings "" [twice; permanent] = [permanent] ∧
  removeInReverse (collectTemporary "" [twice; permanent]) [twice; permanent]
    ≠ Some (rebuildBindings "" [twice; permanent]) ∧
  removeInReverse (collectTemporary "" [twice]) [twice] = None ∧
  Bindings
    (remote (CleanTemporaryBindings calmEnv (NewGCPProvider false)
               (OfGCP (mkOptions "p" [] "" 0))
               (store "p" (mkPolicy [twice; permanent] 1) freshWorld)).2 "p")
    = [withMembers permanent ["user:b@example.com"]] ∧
  (CleanTemporaryBindings calmEnv (NewGCPProvider false)
     (OfGCP (mkOptions "p" [] "" 0))
     (store "p" (mkPolicy [twice] 1) freshWorld)).1 = Panicked.
Proof. vm_compute. repeat split; discriminate. Qed.

(** ** What a completed removal loop leaves behind *)

Section CleanSettles.

Implicit Types (bs pre rest cur : list Binding) (steps : list temporaryBinding).

Lemma settled_collect user bs : ∀ i, settled user bs → collectFrom user i bs = [].
Proof.
  induction bs as [|b bs IH]; intros i Hs; [done|].
  apply Forall_cons in Hs as [Hb Hs]. simpl. rewrite (IH _ Hs), app_nil_r.
  unfold matchesOf. destruct (isTemporary b); [|done].
  specialize (Hb eq_refl).
  replace (filter (λ m, memberSelected user m) (Members b)) with (@nil string);
    [done|].
  symmetry. induction Hb as [|m ms Hm _ IHms]; [done|].
  by rewrite filter_cons_False.
Qed.

Lemma settled_headPending user pending cur :
  settled user cur → headPending user pending cur.
Proof.
  destruct cur as [|b t]; [done|]. intros [Hb Ht]%Forall_cons. split; [done|].
  intros Htemp m Hm Hsel. specialize (Hb Htemp).
  rewrite Forall_forall in Hb. by destruct (Hb m Hm).
Qed.

Lemma removeEach_head_settles user pre steps : ∀ cur bs',
  Forall (λ tb, tbIndex tb = length pre) steps →
  headPending user (tbMember <$> steps) cur →
  removeEach steps (pre ++ cur) = Some bs' →
  ∃ cur', bs' = pre ++ cur' ∧ settled user cur'.
Proof.
  induction steps as [|tb steps IH]; intros cur bs' Hidx Hpend Hrun.
  - injection Hrun as <-. exists cur. split; [done|].
    destruct cur as [|b t]; [constructor|]. destruct Hpend as [Ht Hb].
    apply Forall_cons. split; [|done]. intros Htemp. apply Forall_forall.
    intros m Hm Hsel. specialize (Hb Htemp m Hm Hsel). inversion Hb.
  - apply Forall_cons in Hidx as [Hi Hidx]. simpl in Hrun.
    destruct cur as [|b t].
    { by rewrite app_nil_r, removeMatch_end in Hrun. }
    rewrite removeMatch_head in Hrun by done.
    destruct Hpend as [Ht Hb]. eapply IH; [done| |exact Hrun].
    destruct (withoutMember (tbMember tb) (Members b)) as [|m ms] eqn:E.
    + by apply settled_headPending.
    + split; [done|]. intros Htemp x Hx Hsel. simpl in Hx. rewrite <- E in Hx.
      unfold withoutMember in Hx. apply list_elem_of_filter in Hx as [Hne Hx].
      specialize (Hb Htemp x Hx Hsel). rewrite fmap_cons in Hb.
      by apply elem_of_cons in Hb as [?|?].
Qed.

Lemma removeEach_settles user rest : ∀ pre bs',
  removeEach (reverse (collectFrom user (length pre) rest)) (pre ++ rest) = Some bs' →
  ∃ suf, bs' = pre ++ suf ∧ settled user suf.
Proof.
  induction rest as [|binding rest IH]; intros pre bs' Hrun.
  - injection Hrun as <-. exists []. split; [done|constructor].
  - simpl collectFrom in Hrun. rewrite reverse_app, removeEach_app in Hrun.
    destruct (removeEach (reverse (collectFrom user (S (length pre)) rest))
                (pre ++ binding :: rest)) as [mid|] eqn:Hmid; [|done].
    destruct (IH (pre ++ [binding]) mid) as (suf & -> & Hsuf).
    { by rewrite length_app, Nat.add_1_r, <- app_assoc. }
    rewrite <- app_assoc in Hrun. simpl in Hrun.
    eapply (removeEach_head_settles user pre); [| |exact Hrun].
    + apply Forall_reverse, matchesOf_index.
    + split; [done|]. intros Htemp m Hm Hsel.
      rewrite fmap_reverse, elem_of_reverse, matchesOf_members, Htemp.
      by apply list_elem_of_filter.
Qed.

(** Once the removal loop has run to its end, a second collection over its
    result finds nothing. *)
Lemma removeInReverse_settles user bs bs' :
  removeInReverse (collectTemporary user bs) bs = Some bs' →
  collectTemporary user bs' = [].
Proof.
  intros Hrun. destruct (removeEach_settles user bs [] bs' Hrun) as (suf & -> & Hs).
  by apply settled_collect.
Qed.

End CleanSettles.

(** ** The operations and the remote side *)

Section Loops.

(** A loop keeps what each of its rounds keeps. *)
Lemma foldl_invariant {St A} (f : St → A → St) (I : St → Prop) (l : list A) :
  ∀ s, I s → (∀ s a, a ∈ l → I s → I (f s a)) → I (foldl f s l).
Proof.
  induction l as [|a l IH]; intros s Hs Hstep; [done|]. simpl.
  apply IH.
  - apply Hstep; [left|done].
  - intros s' a' Ha'. apply Hstep. by right.
Qed.

Lemma emits_refl P w : emits P w w.
Proof. exists []. by rewrite app_nil_r. Qed.

Lemma emits_trans P w1 w2 w3 : emits P w1 w2 → emits P w2 w3 → emits P w1 w3.
Proof.
  intros (evs1 & H1 & F1) (evs2 & H2 & F2). exists (evs1 ++ evs2).
  rewrite H2, H1, app_assoc. split; [done|]. by apply Forall_app.
Qed.

Lemma emits_one (P : Event → Prop) w w' e :
  trace w' = trace w ++ [e] → P e → emits P w w'.
Proof. intros H He. exists [e]. split; [done|]. by constructor. Qed.

Lemma emits_same P w w' : trace w' = trace w → emits P w w'.
Proof. intros H. exists []. by rewrite app_nil_r. Qed.

End Loops.

(** ** The policy version of every write *)

Section PolicyVersion.

Context (env : Env).

Lemma getIAMPolicy_version project w policy w' :
  getIAMPolicy env project w = (Ok policy, w') → Version policy = policyVersion.
Proof.
  unfold getIAMPolicy. destruct (apiError env (calls w)); [done|].
  by intros [= <- _].
Qed.

Lemma getIAMPolicy_world project w :
  (getIAMPolicy env project w).2 = called (GetIamPolicy project) w.
Proof. unfold getIAMPolicy. by destruct (apiError env (calls w)). Qed.

Lemma getIAMPolicy_emits project w :
  emits carriesVersion w (getIAMPolicy env project w).2.
Proof. rewrite getIAMPolicy_world. by eapply emits_one. Qed.

Lemma setIAMPolicy_trace project policy w :
  trace (setIAMPolicy env project policy w).2 =
    trace w ++ [SetIamPolicy project policy].
Proof. unfold setIAMPolicy. by destruct (apiError env (calls w)). Qed.

Lemma setIAMPolicy_emits project policy w :
  Version policy = policyVersion →
  emits carriesVersion w (setIAMPolicy env project policy w).2.
Proof. intros Hv. eapply emits_one; [apply setIAMPolicy_trace|done]. Qed.

Lemma createBinding_trace role member ttl w :
  trace (createBinding env role member ttl w).2 = trace w.
Proof. done. Qed.

Lemma grantRole_version o member w0 st role :
  emits carriesVersion w0 st.2 →
  emits carriesVersion w0 (grantRole env o member st role).2.
Proof.
  destruct st as [[p errs] w]. intros Hw. eapply emits_trans; [exact Hw|].
  unfold grantRole. destruct (dryRun p); [by apply emits_same|].
  match goal with |- context [getIAMPolicy env ?pr ?w1] =>
    pose proof (getIAMPolicy_emits pr w1) as Hget;
    destruct (getIAMPolicy env pr w1) as [[policy|err] w2] eqn:Eget
  end; simpl in Hget.
  2: { eapply emits_trans; [|exact Hget]. by apply emits_same. }
  apply getIAMPolicy_version in Eget.
  destruct (createBinding env (formatRole role) member (TTL o) w2)
    as [binding w3] eqn:Ecreate.
  pose proof (createBinding_trace (formatRole role) member (TTL o) w2) as Htr.
  rewrite Ecreate in Htr. simpl in Htr.
  match goal with |- context [setIAMPolicy env ?pr ?pol ?w1] =>
    pose proof (setIAMPolicy_emits pr pol w1 Eget) as Hset;
    destruct (setIAMPolicy env pr pol w1) as [[err|] w4] eqn:Eset
  end; simpl in Hset |- *.
  - eapply emits_trans; [by apply emits_same|].
    eapply emits_trans; [exact Hget|].
    eapply emits_trans; [apply emits_same; exact Htr|].
    eapply emits_trans; [exact Hset|]. by apply emits_same.
  - eapply emits_trans; [by apply emits_same|].
    eapply emits_trans; [exact Hget|].
    eapply emits_trans; [apply emits_same; exact Htr|]. exact Hset.
Qed.

Lemma revokeRole_version p o member w0 st g :
  emits carriesVersion w0 st.2 →
  emits carriesVersion w0 (revokeRole env p o member st g).2.
Proof.
  destruct st as [errs w]. intros Hw. eapply emits_trans; [exact Hw|].
  unfold revokeRole. destruct (dryRun p); [by apply emits_same|].
  match goal with |- context [getIAMPolicy env ?pr ?w1] =>
    pose proof (getIAMPolicy_emits pr w1) as Hget;
    destruct (getIAMPolicy env pr w1) as [[policy|err] w2] eqn:Eget
  end; simpl in Hget.
  2: { eapply emits_trans; [|exact Hget]. by apply emits_same. }
  apply getIAMPolicy_version in Eget.
  match goal with |- context [setIAMPolicy env ?pr ?pol ?w1] =>
    pose proof (setIAMPolicy_emits pr pol w1 Eget) as Hset;
    destruct (setIAMPolicy env pr pol w1) as [[err|] w4] eqn:Eset
  end; simpl in Hset |- *.
  - eapply emits_trans; [by apply emits_same|].
    eapply emits_trans; [exact Hget|].
    eapply emits_trans; [exact Hset|]. by apply emits_same.
  - eapply emits_trans; [by apply emits_same|].
    eapply emits_trans; [exact Hget|]. exact Hset.
Qed.

Lemma announce_trace p l : ∀ w, trace (foldl (announce p) w l) = trace w.
Proof.
  induction l as [|tb l IH]; intros w; [done|]. simpl. rewrite IH.
  unfold announce. by destruct (dryRun p).
Qed.

Lemma removeLoop_trace steps : ∀ bs w,
  trace (removeLoop steps bs w).2 = trace w.
Proof.
  induction steps as [|tb steps IH]; intros bs w; [done|]. simpl.
  destruct (removeMatch tb bs); [by rewrite IH|done].
Qed.

Lemma Grant_version p opts w :
  emits carriesVersion w (Grant env p opts w).2.
Proof.
  unfold Grant. destruct opts as [o|]; [|apply emits_refl].
  set (resolved := if bool_decide (User o = "") then _ else _).
  assert (Hres : match resolved with
                 | Ok (_, w1) => trace w1 = trace w
                 | Err _ => True
                 end).
  { subst resolved. destruct (bool_decide (User o = "")); [|done].
    by destruct (getCurrentUser env). }
  destruct resolved as [[o1 w1]|err]; [|apply emits_refl].
  pose proof (foldl_invariant (grantRole env o1 (formatMember (User o1)))
    (λ st, emits carriesVersion w st.2) (Roles o1) (p, [], w1)) as Hloop.
  destruct (foldl _ _ _) as [[p2 errs] w2]. simpl in Hloop.
  assert (Hw2 : emits carriesVersion w w2).
  { apply Hloop; [by apply emits_same|].
    intros st role _. apply grantRole_version. }
  destruct (0 <? length errs)%nat; [|done].
  destruct (length (grantedRoles p2) =? 0)%nat; [done|].
  eapply emits_trans; [exact Hw2|]. by apply emits_same.
Qed.

Lemma Revoke_version p opts w :
  emits carriesVersion w (Revoke env p opts w).2.
Proof.
  unfold Revoke. destruct opts as [o|]; [|apply emits_refl].
  destruct (length (grantedRoles p) =? 0)%nat; [by apply emits_same|].
  pose proof (foldl_invariant (revokeRole env p o (formatMember (User o)))
    (λ st, emits carriesVersion w st.2) (grantedRoles p) ([], w)) as Hloop.
  destruct (foldl _ _ _) as [errs w2]. simpl in Hloop.
  assert (Hw2 : emits carriesVersion w w2).
  { apply Hloop; [apply emits_refl|].
    intros st g _. apply revokeRole_version. }
  destruct (0 <? length errs)%nat; [|done].
  eapply emits_trans; [exact Hw2|]. by apply emits_same.
Qed.

Lemma Clean_version p opts w :
  emits carriesVersion w (CleanTemporaryBindings env p opts w).2.
Proof.
  unfold CleanTemporaryBindings. destruct opts as [o|]; [|apply emits_refl].
  pose proof (getIAMPolicy_emits (Project o) w) as Hget.
  destruct (getIAMPolicy env (Project o) w) as [[policy|err] w1] eqn:Eget;
    simpl in Hget; [|done].
  apply getIAMPolicy_version in Eget.
  destruct (length _ =? 0)%nat.
  { eapply emits_trans; [exact Hget|]. by apply emits_same. }
  destruct (dryRun p).
  { eapply emits_trans; [exact Hget|]. apply emits_same, announce_trace. }
  match goal with |- context [removeLoop ?steps ?bs ?w2] =>
    pose proof (removeLoop_trace steps bs w2) as Hloop;
    destruct (removeLoop steps bs w2) as [[bs'|] w3]
  end; simpl in Hloop; rewrite announce_trace in Hloop.
  2: { eapply emits_trans; [exact Hget|]. by apply emits_same. }
  match goal with |- context [setIAMPolicy env ?pr ?pol ?w1] =>
    pose proof (setIAMPolicy_emits pr pol w1 Eget) as Hset;
    destruct (setIAMPolicy env pr pol w1) as [[err|] w4] eqn:Eset
  end; simpl in Hset |- *.
  - eapply emits_trans; [exact Hget|].
    eapply emits_trans; [apply emits_same; exact Hloop|]. exact Hset.
  - eapply emits_trans; [exact Hget|].
    eapply emits_trans; [apply emits_same; exact Hloop|].
    eapply emits_trans; [exact Hset|]. by apply emits_same.
Qed.

End PolicyVersion.

(** C8.  Every fetch returns its policy with the version field set to the
    value that enables conditional bindings (3), and every policy that
    Grant, Revoke or CleanTemporaryBindings passes to the set-policy call
    (whether the call then succeeds or not) carries that version. *)
Theorem every_write_carries_policy_version :
  ∀ (env : Env) (p : GCPProvider) (opts : Options) (w : World),
    (∀ project,
       match (getIAMPolicy env project w).1 with
       | Ok policy => Version policy = 3
       | Err _ => True
       end) ∧
    emits carriesVersion w (Grant env p opts w).2 ∧
    emits carriesVersion w (Revoke env p opts w).2 ∧
    emits carriesVersion w (CleanTemporaryBindings env p opts w).2.
Proof.
  intros env p opts w. split; [|split; [|split]].
  - intros project.
    destruct (getIAMPolicy env project w) as [[policy|err] w'] eqn:E; [|done].
    by apply getIAMPolicy_version in E.
  - apply Grant_version.
  - apply Revoke_version.
  - apply Clean_version.
Qed.

(** ** Dry runs *)

Section DryRun.

Context (env : Env).

Lemma onlyLogged_refl w : onlyLogged w w.
Proof. done. Qed.

Lemma onlyLogged_logf l f a w w0 : onlyLogged w0 w → onlyLogged w0 (logf l f a w).
Proof. done. Qed.

Lemma grantRole_dry o member w0 st role :
  dryRun st.1.1 = true → onlyLogged w0 st.2 →
  (grantRole env o member st role).1 = st.1 ∧
  onlyLogged w0 (grantRole env o member st role).2.
Proof.
  destruct st as [[p errs] w]. simpl. intros Hdry Hw.
  unfold grantRole. by rewrite Hdry.
Qed.

Lemma grant_loop_dry o member w0 roles : ∀ p errs w,
  dryRun p = true → onlyLogged w0 w →
  ∃ w', foldl (grantRole env o member) (p, errs, w) roles = (p, errs, w') ∧
        onlyLogged w0 w'.
Proof.
  induction roles as [|role roles IH]; intros p errs w Hdry Hw.
  - by exists w.
  - simpl.
    destruct (grantRole_dry o member w0 (p, errs, w) role Hdry Hw) as [H1 H2].
    destruct (grantRole env o member (p, errs, w) role) as [[p1 errs1] w1].
    simpl in *. injection H1 as -> ->. by apply IH.
Qed.

Lemma announce_onlyLogged p l : ∀ w w0,
  onlyLogged w0 w → onlyLogged w0 (foldl (announce p) w l).
Proof.
  induction l as [|tb l IH]; intros w w0 Hw; [done|]. simpl. apply IH.
  unfold announce. by destruct (dryRun p).
Qed.

(** The lines of the loop that lists the bindings that will be affected. *)
Lemma announce_log p l : ∀ w,
  log (foldl (announce p) w l) =
    log w ++ ((λ tb, mkLog Info
                (if dryRun p
                 then "[DRY-RUN] Would remove binding: Role=%s, Member=%s, ID=%s"
                 else "Found binding to remove: Role=%s, Member=%s, ID=%s")
                [S_ (tbRole tb); S_ (tbMember tb); S_ (tbBindingID tb)]) <$> l).
Proof.
  induction l as [|tb l IH]; intros w; simpl.
  - by rewrite app_nil_r.
  - rewrite IH. unfold announce. destruct (dryRun p); simpl;
      by rewrite <- app_assoc.
Qed.

End DryRun.

(** C10.  In dry-run mode, with a resolvable user, Grant makes no policy
    call for any role (the trace and the stored policies are what they
    were), leaves the provider and so its grantedRoles list as it is, and
    returns nil, whatever the role list. *)
Theorem Grant_dry_run_is_inert :
  ∀ (env : Env) (p : GCPProvider) (o : GCPOptions) (w : World),
    dryRun p = true →
    userResolvable env o →
    ∃ o' w', Grant env p (OfGCP o) w = (None, OfGCP o', p, w') ∧
             trace w' = trace w ∧ calls w' = calls w ∧ remote w' = remote w.
Proof.
  intros env p o w Hdry Hres. unfold Grant.
  set (resolved := if bool_decide (User o = "") then _ else _).
  assert (∃ o1 w1, resolved = Ok (o1, w1) ∧ onlyLogged w w1)
    as (o1 & w1 & -> & Hw1).
  { subst resolved. case_bool_decide as Huser.
    - destruct Hres as [Hne|[user Hu]]; [done|]. rewrite Hu.
      by eexists _, _.
    - by eexists _, _. }
  destruct (grant_loop_dry env o1 (formatMember (User o1)) w (Roles o1)
              p [] w1 Hdry Hw1) as (w2 & -> & Hw2).
  simpl. exists o1, w2. split; [done|]. destruct Hw2 as (? & ? & ? & ?). done.
Qed.

(** C10 at work: three roles, the user taken from the credentials. *)
Lemma Grant_dry_run_is_inert_witness :
  dryRun (NewGCPProvider true) = true ∧
  userResolvable calmEnv (mkOptions "p" ["viewer"; "roles/editor"; "owner"] "" 3600) ∧
  ∃ o' w',
    Grant calmEnv (NewGCPProvider true)
      (OfGCP (mkOptions "p" ["viewer"; "roles/editor"; "owner"] "" 3600))
      freshWorld
    = (None, OfGCP o', NewGCPProvider true, w') ∧
    trace w' = trace freshWorld ∧ calls w' = calls freshWorld ∧
    remote w' = remote freshWorld.
Proof.
  assert (Hdry : dryRun (NewGCPProvider true) = true) by reflexivity.
  assert (Hres : userResolvable calmEnv
            (mkOptions "p" ["viewer"; "roles/editor"; "owner"] "" 3600))
    by (right; by eexists).
  split; [exact Hdry|]. split; [exact Hres|].
  exact (Grant_dry_run_is_inert calmEnv (NewGCPProvider true) _ freshWorld Hdry Hres).
Defined.

(** C6.  With dryRun set, CleanTemporaryBindings returns without a panic,
    makes no set-policy call (the trace grows by fetches only), and leaves
    the stored policies as they were, so that a subsequent fetch that
    succeeds shows the bindings unchanged.  When its own fetch succeeds it
    returns nil and logs one "would remove" line per match, in the order of
    collection, or the line that nothing was found. *)
Theorem Clean_dry_run_reports_only :
  ∀ (env : Env) (p : GCPProvider) (opts : Options) (w : World),
    dryRun p = true →
    ∃ r w', CleanTemporaryBindings env p opts w = (r, w') ∧
      r ≠ Panicked ∧
      emits isFetch w w' ∧
      remote w' = remote w ∧
      (∀ project policy w'',
         getIAMPolicy env project w' = (Ok policy, w'') →
         Bindings policy = Bindings (remote w project)) ∧
      (∀ o, opts = OfGCP o → apiError env (calls w) = None →
         r = Returned None ∧
         log w' = log w ++
           match collectTemporary (User o) (Bindings (remote w (Project o))) with
           | [] => [mkLog Info "No temporary bindings found" []]
           | found => wouldRemove <$> found
           end).
Proof.
  intros env p opts w Hdry.
  assert (Hfetch : ∀ w1 : World, remote w1 = remote w →
            ∀ project policy w'',
              getIAMPolicy env project w1 = (Ok policy, w'') →
              Bindings policy = Bindings (remote w project)).
  { intros w1 Hw1 project policy w''. unfold getIAMPolicy.
    destruct (apiError env (calls w1)); [done|]. intros [= <- _].
    by rewrite Hw1. }
  unfold CleanTemporaryBindings. destruct opts as [o|].
  2: { eexists _, _. split; [done|]. split; [done|].
       split; [apply emits_refl|]. split; [done|]. split; [by apply Hfetch|].
       done. }
  unfold getIAMPolicy at 1. destruct (apiError env (calls w)) as [err|] eqn:Hcall.
  { eexists _, _. split; [done|]. split; [done|].
    split; [by eapply emits_one|]. split; [done|]. split; [by apply Hfetch|].
    done. }
  cbn [Bindings].
  destruct (collectTemporary (User o) (Bindings (remote w (Project o))))
    as [|tb found] eqn:Hfound.
  { eexists _, _. split; [done|]. split; [done|].
    split; [by eapply emits_one|]. split; [done|]. split; [by apply Hfetch|].
    intros o' [= <-] _. by rewrite Hfound. }
  cbn [length Nat.eqb]. rewrite Hdry.
  destruct (announce_onlyLogged p (tb :: found)
              (called (GetIamPolicy (Project o)) w) _ (onlyLogged_refl _))
    as (Hremote & _).
  eexists _, _. split; [done|]. split; [done|].
  split; [eapply emits_one; [by rewrite announce_trace|done]|].
  split; [done|]. split; [by apply Hfetch|].
  intros o' [= <-] _. rewrite Hfound. split; [done|].
  by rewrite announce_log, Hdry.
Qed.

(** C6 at work: one temporary binding is stored, the dry run reports it
    and the stored policy is the same afterwards. *)
Lemma Clean_dry_run_reports_only_witness :
  dryRun (NewGCPProvider true) = true ∧
  ∃ r w',
    CleanTemporaryBindings calmEnv (NewGCPProvider true)
      (OfGCP (mkOptions "p" [] "" 0))
      (store "p" (mkPolicy [twice; permanent] 1) freshWorld) = (r, w') ∧
    r = Returned None ∧
    remote w' "p" = mkPolicy [twice; permanent] 1 ∧
    trace w' = [GetIamPolicy "p"].
Proof.
  assert (Hdry : dryRun (NewGCPProvider true) = true) by reflexivity.
  split; [exact Hdry|].
  destruct (Clean_dry_run_reports_only calmEnv (NewGCPProvider true)
              (OfGCP (mkOptions "p" [] "" 0))
              (store "p" (mkPolicy [twice; permanent] 1) freshWorld) Hdry)
    as (r & w' & Hrun & _ & _ & Hremote & _ & Hreport).
  exists r, w'. split; [exact Hrun|].
  destruct (Hreport _ eq_refl eq_refl) as [-> _].
  split; [done|]. split; [by rewrite Hremote|].
  revert Hrun. vm_compute. by intros [= <-].
Defined.

(** ** What a policy call returns and leaves behind *)

Section Remote.

Context (env : Env).

Lemma getIAMPolicy_Ok project w policy w' :
  getIAMPolicy env project w = (Ok policy, w') →
  policy = {| Bindings := Bindings (remote w project); Version := policyVersion |} ∧
  w' = called (GetIamPolicy project) w ∧
  apiError env (calls w) = None.
Proof.
  unfold getIAMPolicy. destruct (apiError env (calls w)); [done|].
  by intros [= <- <-].
Qed.

Lemma getIAMPolicy_Err project w err w' :
  getIAMPolicy env project w = (Err err, w') →
  w' = called (GetIamPolicy project) w ∧
  ∃ e, apiError env (calls w) = Some e.
Proof.
  unfold getIAMPolicy. destruct (apiError env (calls w)) as [e|]; [|done].
  intros [= _ <-]. eauto.
Qed.

Lemma setIAMPolicy_None project policy w w' :
  setIAMPolicy env project policy w = (None, w') →
  w' = store project policy (called (SetIamPolicy project policy) w) ∧
  apiError env (calls w) = None.
Proof.
  unfold setIAMPolicy. destruct (apiError env (calls w)); [done|].
  by intros [= <-].
Qed.

Lemma setIAMPolicy_Some project policy w err w' :
  setIAMPolicy env project policy w = (Some err, w') →
  w' = called (SetIamPolicy project policy) w ∧
  ∃ e, apiError env (calls w) = Some e.
Proof.
  unfold setIAMPolicy. destruct (apiError env (calls w)) as [e|]; [|done].
  intros [= _ <-]. eauto.
Qed.

End Remote.

(** Case analysis on the policy calls of the round in the goal. *)
Ltac on_get env :=
  match goal with
  | |- context [getIAMPolicy env ?pr ?w1] =>
      let E := fresh "Eget" in
      destruct (getIAMPolicy env pr w1) as [[?policy|?err] ?w] eqn:E;
      [apply getIAMPolicy_Ok in E as (-> & -> & ?Hcall)
      |apply getIAMPolicy_Err in E as (-> & ?e & ?Hcall)];
      cbn [remote calls reads trace log logf called store ticked Bindings Version] in *
  end.

Ltac on_set env :=
  match goal with
  | |- context [setIAMPolicy env ?pr ?pol ?w1] =>
      let E := fresh "Eset" in
      destruct (setIAMPolicy env pr pol w1) as [[?err|] ?w] eqn:E;
      [apply setIAMPolicy_Some in E as (-> & ?e & ?Hcall)
      |apply setIAMPolicy_None in E as (-> & ?Hcall)];
      cbn [remote calls reads trace log logf called store ticked Bindings Version] in *
  end.

(** ** Revoke and the bindings of others *)

Section RevokeWorld.

Context (env : Env).

Lemma revokeRole_keeps p o member grs w0 st g :
  g ∈ grs → revokeKeeps grs w0 st →
  revokeKeeps grs w0 (revokeRole env p o member st g).
Proof.
  destruct st as [errs w]. intros Hg [Hem Hrem]. simpl in *.
  unfold revokeRole. destruct (dryRun p).
  { split; [|done]. eapply emits_trans; [exact Hem|]. by apply emits_same. }
  on_get env.
  2: { split; [|done]. eapply emits_trans; [exact Hem|]. by eapply emits_one. }
  assert (Hkeep : foreign grs
            (revokeBindings g member (Bindings (remote w (Project o))))
            = foreign grs (Bindings (remote w0 (Project o)))).
  { rewrite foreign_revokeBindings by done. apply Hrem. }
  on_set env.
  - split; [|done]. eapply emits_trans; [exact Hem|].
    eexists [_; _]. split; [simpl; by rewrite <- app_assoc|].
    repeat constructor. exact Hkeep.
  - split.
    + eapply emits_trans; [exact Hem|].
      eexists [_; _]. split; [simpl; by rewrite <- app_assoc|].
      repeat constructor. exact Hkeep.
    + intros project. simpl. case_bool_decide as Hp; [|apply Hrem].
      subst project. exact Hkeep.
Qed.

Lemma Revoke_keeps p opts w :
  revokeKeeps (grantedRoles p) w ([], (Revoke env p opts w).2).
Proof.
  unfold Revoke. destruct opts as [o|].
  2: { split; [apply emits_refl|done]. }
  destruct (length (grantedRoles p) =? 0)%nat.
  { split; [by apply emits_same|done]. }
  pose proof (foldl_invariant (revokeRole env p o (formatMember (User o)))
    (revokeKeeps (grantedRoles p) w) (grantedRoles p) ([], w)) as Hloop.
  destruct (foldl _ _ _) as [errs w2].
  assert (Hw2 : revokeKeeps (grantedRoles p) w (errs, w2)).
  { apply Hloop; [split; [apply emits_refl|done]|].
    intros st g Hg. by apply revokeRole_keeps. }
  destruct Hw2 as [Hem Hrem]. simpl in *.
  destruct (0 <? length errs)%nat; [|done].
  split; [|done]. eapply emits_trans; [exact Hem|]. by apply emits_same.
Qed.

End RevokeWorld.

(** C3.  A binding is foreign to the session when no (Role, BindingID) pair
    of its grantedRoles list equals both the role and the condition title
    of the binding.  For each recorded grant, the scan of a fetched policy
    returns the foreign bindings as they were, in their order; so every
    policy Revoke passes to set-policy holds exactly the foreign bindings
    that were stored for the project, unchanged, and so does every stored
    policy once Revoke is over: Revoke neither removes nor modifies a
    binding that is not one of the session's own recorded grants. *)
Theorem Revoke_keeps_foreign_bindings :
  ∀ (env : Env) (p : GCPProvider) (opts : Options) (w : World),
    (∀ g member bs, g ∈ grantedRoles p →
       foreign (grantedRoles p) (revokeBindings g member bs)
       = foreign (grantedRoles p) bs) ∧
    emits (keepsForeign (grantedRoles p) w) w (Revoke env p opts w).2 ∧
    (∀ project,
       foreign (grantedRoles p) (Bindings (remote (Revoke env p opts w).2 project))
       = foreign (grantedRoles p) (Bindings (remote w project))) ∧
    (∀ project b,
       b ∈ Bindings (remote w project) → ownedBy (grantedRoles p) b = false →
       b ∈ Bindings (remote (Revoke env p opts w).2 project)).
Proof.
  intros env p opts w. destruct (Revoke_keeps env p opts w) as [Hem Hrem].
  simpl in *. split; [|split; [|split]]; try done.
  - intros g member bs Hg. by apply foreign_revokeBindings.
  - intros project b Hb Hown.
    assert (Hin : b ∈ foreign (grantedRoles p) (Bindings (remote w project))).
    { unfold foreign. apply list_elem_of_filter. split; [|done].
      rewrite Hown. intros H. exact H. }
    rewrite <- Hrem in Hin. unfold foreign in Hin.
    by apply list_elem_of_filter in Hin as [_ ?].
Qed.

(** ** Grant: partial success *)

Section GrantRounds.

Context (env : Env).

Lemma okWrites_app k evs1 evs2 :
  okWrites env k (evs1 ++ evs2) =
    okWrites env k evs1 ++ okWrites env (k + length evs1) evs2.
Proof.
  revert k. induction evs1 as [|e evs1 IH]; intros k; simpl.
  - by rewrite Nat.add_0_r.
  - rewrite IH, <- app_assoc. do 3 f_equal. lia.
Qed.

Lemma grantRole_progress o member p0 w0 rounds st evs granted role :
  dryRun p0 = false →
  grantProgress env p0 w0 rounds st evs granted →
  ∃ evs' granted',
    grantProgress env p0 w0 (S rounds) (grantRole env o member st role) evs' granted'.
Proof.
  destruct st as [[p errs] w]. intros Hdry [H1 H2 H3 H4 H5 H6 H7]. simpl in *.
  unfold grantRole. rewrite H1, Hdry.
  on_get env.
  { destruct (createBinding _ _ _ _ _) as [binding w1] eqn:Ecreate.
    assert (Hw1 : trace w1 = trace w ++ [GetIamPolicy (Project o)] ∧
                  calls w1 = S (calls w)).
    { unfold createBinding in Ecreate. simpl in Ecreate.
      by injection Ecreate as <- <-. }
    destruct Hw1 as [Htr Hcalls].
    on_set env.
    - exists (evs ++ [GetIamPolicy (Project o);
                      SetIamPolicy (Project o)
                        (withBindings
                           {| Bindings := Bindings (remote w (Project o));
                              Version := policyVersion |}
                           (Bindings (remote w (Project o)) ++ [binding]))]),
             granted.
      constructor; simpl; try done.
      + by rewrite Htr, H2, <- !app_assoc.
      + rewrite Hcalls, H3, length_app. simpl. lia.
      + rewrite filter_app, length_app, H5. simpl. lia.
      + rewrite okWrites_app. simpl. rewrite <- H3, <- Hcalls, Hcall0.
        by rewrite !app_nil_r.
      + rewrite length_app. simpl. lia.
    - exists (evs ++ [GetIamPolicy (Project o);
                      SetIamPolicy (Project o)
                        (withBindings
                           {| Bindings := Bindings (remote w (Project o));
                              Version := policyVersion |}
                           (Bindings (remote w (Project o)) ++ [binding]))]),
             (granted ++ [{| grRole := formatRole role;
                             grBindingID := conditionTitle binding |}]).
      constructor; simpl; try done.
      + by rewrite Htr, H2, <- !app_assoc.
      + rewrite Hcalls, H3, length_app. simpl. lia.
      + by rewrite H4, <- app_assoc.
      + rewrite filter_app, length_app, H5. simpl. lia.
      + rewrite okWrites_app, !length_app. simpl.
        rewrite <- H3, <- Hcalls, Hcall0. simpl. lia.
      + rewrite length_app. simpl. lia. }
  exists (evs ++ [GetIamPolicy (Project o)]), granted.
  constructor; simpl; try done.
  - by rewrite H2, <- app_assoc.
  - rewrite H3, length_app. simpl. lia.
  - rewrite filter_app, length_app, H5. simpl. lia.
  - rewrite okWrites_app. simpl. by rewrite app_nil_r.
  - rewrite length_app. simpl. lia.
Qed.

Lemma grant_loop_progress o member p0 w0 roles : ∀ rounds st evs granted,
  dryRun p0 = false →
  grantProgress env p0 w0 rounds st evs granted →
  ∃ evs' granted',
    grantProgress env p0 w0 (rounds + length roles)
      (foldl (grantRole env o member) st roles) evs' granted'.
Proof.
  induction roles as [|role roles IH]; intros rounds st evs granted Hdry Hst.
  - exists evs, granted. by rewrite Nat.add_0_r.
  - simpl.
    destruct (grantRole_progress o member p0 w0 rounds st evs granted role
                Hdry Hst) as (evs1 & granted1 & Hst1).
    destruct (IH (S rounds) _ evs1 granted1 Hdry Hst1) as (evs2 & granted2 & Hst2).
    exists evs2, granted2. by rewrite Nat.add_succ_r.
Qed.

End GrantRounds.


(** X13.  For every Grant invocation with a non-empty role list,
    dry-run disabled: once the user is resolved, every role is processed,
    a failure or not (one fetch per role, and each role either has its
    write accepted or leaves one error); if at least one write was
    accepted, Grant returns nil, and the errors, if any, are only logged,
    in one closing warning; if no write was accepted and the session has no
    grant recorded from before, Grant returns an error. *)
Theorem Grant_partial_success :
  ∀ (env : Env) (p : GCPProvider) (o : GCPOptions) (w : World),
    dryRun p = false →
    Roles o ≠ [] →
    ∃ err opts' p' w' evs errs,
      Grant env p (OfGCP o) w = (err, opts', p', w') ∧
      trace w' = trace w ++ evs ∧
      (userResolvable env o →
         length (filter isFetch evs) = length (Roles o) ∧
         (length errs + length (okWrites env (calls w) evs))%nat
           = length (Roles o)) ∧
      (okWrites env (calls w) evs ≠ [] →
         err = None ∧
         (errs ≠ [] →
            last (log w') =
              Some (mkLog Warn "Failed to grant some roles: %s"
                      [S_ (Join errs "; ")]))) ∧
      (okWrites env (calls w) evs = [] → grantedRoles p = [] →
         ∃ e, err = Some e).
Proof.
  intros env p o w Hdry Hroles. unfold Grant.
  set (resolved := if bool_decide (User o = "") then _ else _).
  assert (Hres : (∃ e, resolved = Err e ∧ ¬ userResolvable env o) ∨
                 (∃ o1 w1, resolved = Ok (o1, w1) ∧ Roles o1 = Roles o ∧
                           trace w1 = trace w ∧ calls w1 = calls w)).
  { subst resolved. case_bool_decide as Huser.
    - destruct (getCurrentUser env) as [user|e] eqn:Hu.
      + right. by eexists _, _.
      + left. eexists. split; [done|]. intros [?|[user ?]]; congruence.
    - right. by eexists _, _. }
  destruct Hres as [(e & -> & Hno)|(o1 & w1 & -> & Hro & Htr & Hca)].
  { exists (Some e), (OfGCP o), p, w, [], []. split; [done|].
    split; [by rewrite app_nil_r|]. split; [by intros ?|].
    split; [by intros ?|]. eauto. }
  assert (Hstart : grantProgress env p w1 0 (p, [], w1) [] []).
  { constructor; simpl; rewrite ?app_nil_r; done. }
  destruct (grant_loop_progress env o1 (formatMember (User o1)) p w1 (Roles o1)
              0%nat (p, [], w1) [] [] Hdry Hstart) as (evs & granted & Hprog).
  destruct (foldl _ _ _) as [[p2 errs] w2]. destruct Hprog as [H1 H2 H3 H4 H5 H6 H7].
  simpl in *. rewrite Hro in *. rewrite Htr in H2. rewrite Hca in H6.
  assert (Hlen : (0 < length (Roles o))%nat).
  { destruct (Roles o); [done|simpl; lia]. }
  destruct (0 <? length errs)%nat eqn:Herrs.
  - destruct (length (grantedRoles p2) =? 0)%nat eqn:Hnone.
    + eexists _, _, _, _, evs, errs. split; [done|]. split; [done|].
      split; [intros _; split; [done|lia]|].
      apply Nat.eqb_eq in Hnone. rewrite H4, length_app in Hnone.
      split; [|eauto]. intros Hok. destruct (okWrites env (calls w) evs); [done|].
      simpl in H6. lia.
    + eexists _, _, _, _, evs, errs. split; [done|]. split; [done|].
      split; [intros _; split; [done|lia]|].
      split.
      * intros _. split; [done|]. intros _. simpl. by rewrite last_snoc.
      * intros Hok Hfresh. apply Nat.eqb_neq in Hnone.
        rewrite H4, Hfresh, length_app in Hnone. rewrite Hok in H6. simpl in *. lia.
  - apply Nat.ltb_ge in Herrs.
    eexists _, _, _, _, evs, errs. split; [done|]. split; [done|].
    split; [intros _; split; [done|lia]|].
    split.
    + intros _. split; [done|]. intros Hne. destruct errs; [done|simpl in *; lia].
    + intros Hok. rewrite Hok in H6. simpl in *. lia.
Qed.

(** X13 at work: two roles, the fetch for the second is refused. *)
Lemma Grant_partial_success_witness :
  dryRun (NewGCPProvider false) = false ∧
  Roles (mkOptions "p" ["viewer"; "editor"] "a@example.com" 3600) ≠ [] ∧
  ∃ err opts' p' w',
    Grant flakyEnv (NewGCPProvider false)
      (OfGCP (mkOptions "p" ["viewer"; "editor"] "a@example.com" 3600))
      freshWorld = (err, opts', p', w') ∧
    err = None.
Proof.
  assert (Hdry : dryRun (NewGCPProvider false) = false) by reflexivity.
  assert (Hroles : Roles (mkOptions "p" ["viewer"; "editor"] "a@example.com" 3600)
                   ≠ []) by discriminate.
  split; [exact Hdry|]. split; [exact Hroles|].
  destruct (Grant_partial_success flakyEnv (NewGCPProvider false) _ freshWorld
              Hdry Hroles)
    as (err & opts' & p' & w' & evs & errs & Hrun & Htr & _ & Hok & _).
  exists err, opts', p', w'. split; [exact Hrun|].
  apply Hok. vm_compute in Hrun. injection Hrun as <- <- <- <-.
  vm_compute in Htr. subst evs. vm_compute. discriminate.
Defined.

(** ** Clean twice *)

(** C5.  When a first CleanTemporaryBindings, dry-run disabled, has
    returned nil, a second one with the same options, started in the world
    the first one left, is a no-op: the stored policy has no match left,
    the second run makes its fetch and no other policy call, leaves the
    stored policies as they are, and, when the fetch succeeds, logs that no
    temporary bindings were found and returns nil. *)
Theorem Clean_twice_is_noop :
  ∀ (env : Env) (p : GCPProvider) (opts : Options) (w w1 : World),
    dryRun p = false →
    CleanTemporaryBindings env p opts w = (Returned None, w1) →
    ∃ o r w2,
      opts = OfGCP o ∧
      CleanTemporaryBindings env p opts w1 = (r, w2) ∧
      collectTemporary (User o) (Bindings (remote w1 (Project o))) = [] ∧
      trace w2 = trace w1 ++ [GetIamPolicy (Project o)] ∧
      remote w2 = remote w1 ∧
      (apiError env (calls w1) = None →
         r = Returned None ∧
         log w2 = log w1 ++ [mkLog Info "No temporary bindings found" []]).
Proof.
  intros env p opts w w1 Hdry Hfirst. destruct opts as [o|]; [|done].
  exists o.
  assert (Hsettled :
    collectTemporary (User o) (Bindings (remote w1 (Project o))) = []).
  { revert Hfirst. unfold CleanTemporaryBindings. on_get env; [|done].
    destruct (collectTemporary (User o) (Bindings (remote w (Project o))))
      as [|tb found] eqn:Hfound.
    { intros [= <-]. exact Hfound. }
    cbn [length Nat.eqb]. rewrite Hdry.
    match goal with |- context [removeLoop ?steps ?bs ?w0] =>
      pose proof (removeLoop_bindings steps bs w0) as Hbs;
      destruct (removeLoop steps bs w0) as [[bs'|] w3]
    end; [|done]. simpl in Hbs.
    on_set env; [done|]. intros [= <-]. simpl.
    rewrite bool_decide_true by done. simpl.
    eapply removeInReverse_settles. unfold removeInReverse.
    rewrite Hfound. symmetry. exact Hbs. }
  unfold CleanTemporaryBindings. unfold getIAMPolicy.
  destruct (apiError env (calls w1)) as [e|].
  - eexists _, _. by repeat split.
  - cbn [Bindings]. rewrite Hsettled. cbn [length Nat.eqb].
    eexists _, _. by repeat split.
Qed.

(** C5 at work: the first run of Clean takes [b@example.com] out of the
    temporary binding and returns nil, and the second run finds nothing. *)
Lemma Clean_twice_is_noop_witness :
  dryRun (NewGCPProvider false) = false ∧
  CleanTemporaryBindings calmEnv (NewGCPProvider false) cleanB storedWorld
    = (Returned None, cleanedOnce) ∧
  ∃ o r w2,
    cleanB = OfGCP o ∧
    r = Returned None ∧
    log w2 = log cleanedOnce ++ [mkLog Info "No temporary bindings found" []].
Proof.
  assert (Hdry : dryRun (NewGCPProvider false) = false) by reflexivity.
  assert (Hfirst :
    CleanTemporaryBindings calmEnv (NewGCPProvider false) cleanB storedWorld
    = (Returned None, cleanedOnce)) by (vm_compute; reflexivity).
  split; [exact Hdry|]. split; [exact Hfirst|].
  destruct (Clean_twice_is_noop calmEnv _ _ _ _ Hdry Hfirst)
    as (o & r & w2 & Ho & _ & _ & _ & _ & Hlog).
  exists o, r, w2. split; [exact Ho|]. by apply Hlog.
Defined.

(** ** The condition titles of created bindings *)

Section Titles.

Context (env : Env).

Lemma createBinding_title role member ttl w :
  conditionTitle (createBinding env role member ttl w).1
    = titleAt env (calls w, S (reads w)).
Proof. done. Qed.

Lemma createBinding_calls role member ttl w :
  calls (createBinding env role member ttl w).2 = calls w.
Proof. done. Qed.

Lemma titleAt_inj stamp stamp' :
  titleAt env stamp = titleAt env stamp' →
  clock env stamp.1 stamp.2 = clock env stamp'.1 stamp'.2.
Proof.
  unfold titleAt. intros H.
  apply (inj (String.app gcpBindingTitlePrefix)) in H.
  apply (inj (String.app "_")) in H. by apply (inj pretty) in H.
Qed.

Lemma titleAt_distinct stamp stamp' :
  clockAdvances env → stamp.1 ≠ stamp'.1 → titleAt env stamp ≠ titleAt env stamp'.
Proof.
  intros Hclock Hne Heq. apply titleAt_inj in Heq.
  destruct (Nat.lt_total stamp.1 stamp'.1) as [Hlt|[?|Hlt]]; [|done|].
  - specialize (Hclock _ _ stamp.2 stamp'.2 Hlt). lia.
  - specialize (Hclock _ _ stamp'.2 stamp.2 Hlt). lia.
Qed.

Lemma createdIn_app evs1 evs2 :
  createdIn (evs1 ++ evs2) = createdIn evs1 ++ createdIn evs2.
Proof. apply omap_app. Qed.

Lemma grantRole_titles o member p0 w0 st evs stamps granted role :
  clockAdvances env →
  titleProgress env p0 w0 st evs stamps granted →
  ∃ evs' stamps' granted',
    titleProgress env p0 w0 (grantRole env o member st role) evs' stamps' granted'.
Proof.
  destruct st as [[p errs] w]. intros Hclock [H1 H2 H3 H4 H5 H6 H7]. simpl in *.
  unfold grantRole. destruct (dryRun p).
  { exists evs, stamps, granted. by constructor. }
  on_get env.
  2: { exists (evs ++ [GetIamPolicy (Project o)]), stamps, granted.
       constructor; simpl; try done.
       - by rewrite H1, <- app_assoc.
       - lia.
       - by rewrite createdIn_app, app_nil_r.
       - eapply Forall_impl; [exact H4|]. simpl. intros; lia.
       - by rewrite createdIn_app, app_nil_r.
       - by rewrite createdIn_app, app_nil_r. }
  match goal with |- context [createBinding env ?r ?m ?t ?w1] =>
    pose proof (createBinding_title r m t w1) as Htitle;
    pose proof (createBinding_calls r m t w1) as Hcalls;
    assert (Htr : trace (createBinding env r m t w1).2 = trace w1) by done;
    destruct (createBinding env r m t w1) as [binding w2]
  end. simpl in Htitle, Hcalls, Htr.
  set (policy := withBindings _ _).
  assert (Hcreated :
    createdIn (evs ++ [GetIamPolicy (Project o); SetIamPolicy (Project o) policy])
    = createdIn evs ++ [binding]).
  { rewrite createdIn_app. f_equal. unfold createdIn. simpl.
    by rewrite last_snoc. }
  assert (Hfresh : ∀ x, x ∈ conditionTitle <$> createdIn evs →
                        x ∉ [conditionTitle binding]).
  { intros x Hx Hin. apply list_elem_of_singleton in Hin as ->.
    rewrite H3 in Hx. apply list_elem_of_fmap in Hx as (stamp & Heq & Hstamp).
    rewrite Forall_forall in H4. specialize (H4 _ Hstamp).
    rewrite Htitle in Heq. revert Heq. apply titleAt_distinct; [done|].
    simpl. lia. }
  assert (Hstamps : Forall (λ stamp, (calls w0 < stamp.1 < S (S (calls w)))%nat)
            (stamps ++ [(S (calls w), S (reads w))])).
  { apply Forall_app. split.
    - eapply Forall_impl; [exact H4|]. simpl. intros; lia.
    - constructor; [simpl; lia|constructor]. }
  on_set env.
  - exists (evs ++ [GetIamPolicy (Project o); SetIamPolicy (Project o) policy]),
           (stamps ++ [(S (calls w), S (reads w))]), granted.
    constructor; simpl; try done.
    + by rewrite Htr, H1, <- !app_assoc.
    + lia.
    + rewrite Hcreated, !fmap_app, H3. cbn [fmap list_fmap]. by rewrite Htitle.
    + by rewrite Hcalls.
    + rewrite Hcreated, fmap_app. apply NoDup_app. repeat split; try done.
      apply NoDup_singleton.
    + rewrite Hcreated, fmap_app. by apply sublist_inserts_r.
  - exists (evs ++ [GetIamPolicy (Project o); SetIamPolicy (Project o) policy]),
           (stamps ++ [(S (calls w), S (reads w))]),
           (granted ++ [{| grRole := formatRole role;
                           grBindingID := conditionTitle binding |}]).
    constructor; simpl; try done.
    + by rewrite Htr, H1, <- !app_assoc.
    + lia.
    + rewrite Hcreated, !fmap_app, H3. cbn [fmap list_fmap]. by rewrite Htitle.
    + by rewrite Hcalls.
    + rewrite Hcreated, fmap_app. apply NoDup_app. repeat split; try done.
      apply NoDup_singleton.
    + by rewrite H6, <- app_assoc.
    + rewrite Hcreated, !fmap_app. by apply sublist_app.
Qed.

Lemma grant_loop_titles o member p0 w0 roles : ∀ st evs stamps granted,
  clockAdvances env →
  titleProgress env p0 w0 st evs stamps granted →
  ∃ evs' stamps' granted',
    titleProgress env p0 w0 (foldl (grantRole env o member) st roles)
      evs' stamps' granted'.
Proof.
  induction roles as [|role roles IH]; intros st evs stamps granted Hclock Hst.
  - by exists evs, stamps, granted.
  - simpl.
    destruct (grantRole_titles o member p0 w0 st evs stamps granted role
                Hclock Hst) as (evs1 & stamps1 & granted1 & Hst1).
    by apply (IH _ evs1 stamps1 granted1).
Qed.

End Titles.

(** C7, as stated, fails.  The clock stands still and one Grant creates
    two bindings: both carry the title made from the one reading there
    is, in the stored policy and in the grantedRoles list. *)
Lemma Grant_repeats_a_title_on_a_standing_clock :
  (Grant frozenEnv (NewGCPProvider false)
     (OfGCP (mkOptions "p" ["viewer"; "editor"] "a@example.com" 3600))
     freshWorld).1.1.1 = None ∧
  conditionTitle <$>
    Bindings (remote (Grant frozenEnv (NewGCPProvider false)
                        (OfGCP (mkOptions "p" ["viewer"; "editor"]
                                  "a@example.com" 3600))
                        freshWorld).2 "p")
    = ["gta_temporary_access_42"; "gta_temporary_access_42"] ∧
  grBindingID <$>
    grantedRoles (Grant frozenEnv (NewGCPProvider false)
                    (OfGCP (mkOptions "p" ["viewer"; "editor"]
                              "a@example.com" 3600))
                    freshWorld).1.2
    = ["gta_temporary_access_42"; "gta_temporary_access_42"] ∧
  ¬ NoDup (conditionTitle <$>
             Bindings (remote (Grant frozenEnv (NewGCPProvider false)
                                 (OfGCP (mkOptions "p" ["viewer"; "editor"]
                                           "a@example.com" 3600))
                                 freshWorld).2 "p")).
Proof.
  assert (Htitles :
    conditionTitle <$>
      Bindings (remote (Grant frozenEnv (NewGCPProvider false)
                          (OfGCP (mkOptions "p" ["viewer"; "editor"]
                                    "a@example.com" 3600))
                          freshWorld).2 "p")
    = ["gta_temporary_access_42"; "gta_temporary_access_42"])
    by (vm_compute; reflexivity).
  split; [vm_compute; reflexivity|]. split; [exact Htitles|].
  split; [vm_compute; reflexivity|].
  rewrite Htitles. intros Hnodup. apply NoDup_cons in Hnodup as [Hnotin _].
  apply Hnotin. left.
Qed.

(** C7, amended.  Provided a reading of the clock taken after more policy
    calls is later: the condition title of a created binding is the fixed marker,
    an underscore and the nanosecond reading of the clock; titles made at
    different numbers of policy calls differ; and the bindings one Grant
    creates (one per set-policy call, each made from a reading taken
    between the policy calls of this very invocation) have pairwise
    distinct titles, the binding IDs recorded in grantedRoles being among
    them.  Two invocations in one process make their policy calls at
    different numbers, so the titles of any two bindings created within
    the process are distinct. *)
Theorem Grant_titles_are_unique :
  ∀ (env : Env) (p : GCPProvider) (opts : Options) (w : World),
    clockAdvances env →
    (∀ role member ttl w1,
       conditionTitle (createBinding env role member ttl w1).1
       = gcpBindingTitlePrefix +:+ "_" +:+
           pretty (clock env (calls w1) (S (reads w1)))) ∧
    (∀ stamp stamp', stamp.1 ≠ stamp'.1 →
       titleAt env stamp ≠ titleAt env stamp') ∧
    ∃ evs stamps granted,
      trace (Grant env p opts w).2 = trace w ++ evs ∧
      conditionTitle <$> createdIn evs = titleAt env <$> stamps ∧
      Forall (λ stamp, (calls w < stamp.1 < calls (Grant env p opts w).2)%nat)
        stamps ∧
      NoDup (conditionTitle <$> createdIn evs) ∧
      grantedRoles (Grant env p opts w).1.2 = grantedRoles p ++ granted ∧
      sublist (grBindingID <$> granted) (conditionTitle <$> createdIn evs).
Proof.
  intros env p opts w Hclock. split; [done|].
  split; [intros stamp stamp'; by apply titleAt_distinct|].
  assert (Hnothing : ∀ w', trace w' = trace w →
    ∃ evs stamps granted,
      trace w' = trace w ++ evs ∧
      conditionTitle <$> createdIn evs = titleAt env <$> stamps ∧
      Forall (λ stamp, (calls w < stamp.1 < calls w')%nat) stamps ∧
      NoDup (conditionTitle <$> createdIn evs) ∧
      grantedRoles p = grantedRoles p ++ granted ∧
      sublist (grBindingID <$> granted) (conditionTitle <$> createdIn evs)).
  { intros w' Hw'. exists [], [], []. rewrite !app_nil_r.
    repeat split; try done; constructor. }
  unfold Grant. destruct opts as [o|]; [|by apply Hnothing].
  set (resolved := if bool_decide (User o = "") then _ else _).
  assert (Hres : (∃ e, resolved = Err e) ∨
                 (∃ o1 w1, resolved = Ok (o1, w1) ∧
                           trace w1 = trace w ∧ calls w1 = calls w)).
  { subst resolved. case_bool_decide as Huser.
    - destruct (getCurrentUser env) as [user|e].
      + right. by eexists _, _.
      + left. by eexists.
    - right. by eexists _, _. }
  destruct Hres as [(e & ->)|(o1 & w1 & -> & Htr & Hca)]; [by apply Hnothing|].
  assert (Hstart : titleProgress env p w1 (p, [], w1) [] [] []).
  { constructor; simpl; rewrite ?app_nil_r; try done; constructor. }
  destruct (grant_loop_titles env o1 (formatMember (User o1)) p w1 (Roles o1)
              (p, [], w1) [] [] [] Hclock Hstart)
    as (evs & stamps & granted & Hprog).
  destruct (foldl _ _ _) as [[p2 errs] w2].
  destruct Hprog as [H1 H2 H3 H4 H5 H6 H7]. simpl in *.
  rewrite Htr in H1. rewrite Hca in H4.
  exists evs, stamps, granted.
  destruct (0 <? length errs)%nat; [|done].
  by destruct (length (grantedRoles p2) =? 0)%nat.
Qed.

Lemma calmEnv_clockAdvances : clockAdvances calmEnv.
Proof. intros k k' r r' Hlt. simpl. lia. Qed.

(** C7 at work: two roles granted to a fresh provider. *)
Lemma Grant_titles_are_unique_witness :
  clockAdvances calmEnv ∧
  NoDup (grBindingID <$>
           grantedRoles
             (Grant calmEnv (NewGCPProvider false)
                (OfGCP (mkOptions "p" ["viewer"; "editor"] "" 3600))
                freshWorld).1.2).
Proof.
  split; [exact calmEnv_clockAdvances|].
  destruct (Grant_titles_are_unique calmEnv (NewGCPProvider false)
              (OfGCP (mkOptions "p" ["viewer"; "editor"] "" 3600))
              freshWorld calmEnv_clockAdvances)
    as (_ & _ & evs & stamps & granted & _ & _ & _ & Hnodup & Hgranted & Hsub).
  rewrite Hgranted. simpl. eapply sublist_NoDup; [exact Hnodup|exact Hsub].
Defined.

(** ** List and Clean look at user members only *)

Section UserMembersOnly.

Context (env : Env).

Lemma memberSelected_user user m :
  memberSelected user m = true → HasPrefix m "user:" = true.
Proof. unfold memberSelected. by intros [? _]%andb_prop. Qed.

Lemma listMember_listed user bs w0 b st m :
  b ∈ bs → isTemporary b = true → m ∈ Members b →
  listed bs w0 st → listed bs w0 (listMember user b st m).
Proof.
  intros Hb Htemp Hm (lines & Hlog & Hall). unfold listMember.
  destruct (memberSelected user m) eqn:Hsel; [|by exists lines].
  exists (lines ++ [foundLine b m]). simpl. rewrite Hlog, <- app_assoc.
  split; [done|]. apply Forall_app. split; [done|]. constructor; [|constructor].
  right. exists b, m. repeat split; try done. by eapply memberSelected_user.
Qed.

Lemma listBinding_listed user bs w0 st b :
  b ∈ bs → listed bs w0 st → listed bs w0 (listBinding user st b).
Proof.
  intros Hb Hst. unfold listBinding.
  destruct (isTemporary b) eqn:Htemp; [|done]. simpl.
  apply (foldl_invariant (listMember user b) (listed bs w0)); [done|].
  intros st' m Hm. by apply listMember_listed.
Qed.

Lemma List_listed p o w :
  listed (Bindings (remote w (Project o))) w
    (true, (ListTemporaryBindings env p (OfGCP o) w).2).
Proof.
  unfold ListTemporaryBindings. on_get env.
  2: { exists []. by rewrite app_nil_r. }
  pose proof (foldl_invariant (listBinding (User o))
    (listed (Bindings (remote w (Project o))) w)
    (Bindings (remote w (Project o)))
    (false, called (GetIamPolicy (Project o)) w)) as Hloop.
  destruct (foldl _ _ _) as [found w2].
  destruct Hloop as (lines & Hlog & Hall).
  { exists []. by rewrite app_nil_r. }
  { intros st b Hb. by apply listBinding_listed. }
  simpl in *. destruct found; simpl.
  - by exists lines.
  - exists (lines ++ [mkLog Info "No temporary bindings found" []]).
    simpl. rewrite Hlog, <- app_assoc. split; [done|]. apply Forall_app.
    split; [done|]. constructor; [by left|constructor].
Qed.

(** Every collected match names a user member of a temporary binding, and
    its index is the place of that binding. *)
Lemma collectFrom_user user bs : ∀ i tb,
  tb ∈ collectFrom user i bs →
  HasPrefix (tbMember tb) "user:" = true ∧
  ∃ b, bs !! (tbIndex tb - i)%nat = Some b ∧ (i ≤ tbIndex tb)%nat ∧
       isTemporary b = true ∧ tbMember tb ∈ Members b.
Proof.
  induction bs as [|b bs IH]; intros i tb Htb; [inversion Htb|].
  simpl in Htb. apply elem_of_app in Htb as [Htb|Htb].
  - unfold matchesOf in Htb. destruct (isTemporary b) eqn:Htemp; [|inversion Htb].
    apply list_elem_of_fmap in Htb as (m & -> & Hm).
    apply list_elem_of_filter in Hm as [Hsel Hm]. simpl. split.
    + apply memberSelected_user with user. by destruct (memberSelected user m).
    + exists b. rewrite Nat.sub_diag. by repeat split.
  - destruct (IH _ _ Htb) as (Huser & b' & Hb' & Hle & Htemp & Hm).
    split; [done|]. exists b'. repeat split; try done; [|lia].
    replace (tbIndex tb - i)%nat with (S (tbIndex tb - S i)) by lia. done.
Qed.

(** A binding that has members, none of them a user, stays through a
    round that removes a user. *)
Lemma removeMatch_keeps tb bs bs' b :
  HasPrefix (tbMember tb) "user:" = true →
  Members b ≠ [] →
  (∀ m, m ∈ Members b → HasPrefix m "user:" = false) →
  removeMatch tb bs = Some bs' → b ∈ bs → b ∈ bs'.
Proof.
  intros Huser Hsome Hnone. unfold removeMatch.
  destruct (bs !! tbIndex tb) as [pb|] eqn:Hpb; [|done]. intros [= <-] Hb.
  rewrite (removeMember_spec _ _ _ _ Hpb).
  rewrite <- (take_drop_middle bs _ _ Hpb) in Hb.
  apply elem_of_app in Hb as [Hb|Hb].
  { destruct (withoutMember _ _); apply elem_of_app; by left. }
  apply elem_of_cons in Hb as [->|Hb].
  2: { destruct (withoutMember _ _); apply elem_of_app; right;
         [done|by right]. }
  rewrite withoutMember_absent.
  - destruct (Members pb) eqn:E; [done|]. rewrite <- E, withMembers_same.
    apply elem_of_app. right. left.
  - intros Hin. apply Hnone in Hin. congruence.
Qed.

Lemma removeEach_keeps steps : ∀ bs bs' b,
  Forall (λ tb, HasPrefix (tbMember tb) "user:" = true) steps →
  Members b ≠ [] →
  (∀ m, m ∈ Members b → HasPrefix m "user:" = false) →
  removeEach steps bs = Some bs' → b ∈ bs → b ∈ bs'.
Proof.
  induction steps as [|tb steps IH]; intros bs bs' b Hall Hsome Hnone Hrun Hb.
  - by injection Hrun as <-.
  - apply Forall_cons in Hall as [Htb Hall]. simpl in Hrun.
    destruct (removeMatch tb bs) as [mid|] eqn:Hmid; [|done].
    eapply IH; try done. by eapply removeMatch_keeps.
Qed.

Lemma removeLoop_remote steps : ∀ bs w,
  remote (removeLoop steps bs w).2 = remote w.
Proof.
  induction steps as [|tb steps IH]; intros bs w; [done|]. simpl.
  destruct (removeMatch tb bs); [by rewrite IH|done].
Qed.

Lemma Clean_keeps p o w b project :
  Members b ≠ [] →
  (∀ m, m ∈ Members b → HasPrefix m "user:" = false) →
  b ∈ Bindings (remote w project) →
  b ∈ Bindings (remote (CleanTemporaryBindings env p (OfGCP o) w).2 project).
Proof.
  intros Hsome Hnone Hb. unfold CleanTemporaryBindings. on_get env; [|done].
  destruct (length _ =? 0)%nat; [done|].
  pose proof (announce_onlyLogged p
    (collectTemporary (User o) (Bindings (remote w (Project o))))
    (called (GetIamPolicy (Project o)) w) _ (onlyLogged_refl _)) as (Hrem & _).
  destruct (dryRun p); [cbn [snd]; by rewrite Hrem|].
  match goal with |- context [removeLoop ?steps ?bs ?w0] =>
    pose proof (removeLoop_bindings steps bs w0) as Hbs;
    pose proof (removeLoop_remote steps bs w0) as Hw3;
    destruct (removeLoop steps bs w0) as [[bs'|] w3]
  end; simpl in Hbs, Hw3.
  2: { cbn [snd]. by rewrite Hw3, Hrem. }
  on_set env; cbn [snd remote logf store called].
  { by rewrite Hw3, Hrem. }
  case_bool_decide as Hp; [|by rewrite Hw3, Hrem]. subst project.
  cbn [Bindings withBindings].
  eapply removeEach_keeps; [| | |symmetry; exact Hbs|]; try done.
  apply Forall_reverse, Forall_forall. intros tb Htb.
  by apply collectFrom_user in Htb as [? _].
Qed.

End UserMembersOnly.

(** C9.  Let [b] be a binding none of whose members starts with "user:"
    (a temporary binding of service accounts, say), and take any member
    filter, the empty one included.  Every line List logs is the
    nothing-found line or reports a member that starts with "user:" of a
    temporary binding of the fetched policy, so no line reports a member
    of [b].  Every match Clean collects names a member that starts with
    "user:" of the temporary binding at its index, which is therefore not
    [b].  And when [b] has members and is stored for a project, it is
    still stored there, unchanged, after Clean, whatever Clean's outcome. *)
Theorem only_user_members_are_considered :
  ∀ (env : Env) (p : GCPProvider) (o : GCPOptions) (w : World) (b : Binding),
    (∀ m, m ∈ Members b → HasPrefix m "user:" = false) →
    (∃ lines,
       log (ListTemporaryBindings env p (OfGCP o) w).2 = log w ++ lines ∧
       Forall (reportsUser (Bindings (remote w (Project o)))) lines ∧
       ∀ m, m ∈ Members b → foundLine b m ∉ lines) ∧
    (∀ bs tb, tb ∈ collectTemporary (User o) bs →
       HasPrefix (tbMember tb) "user:" = true ∧
       ∃ b', bs !! tbIndex tb = Some b' ∧ isTemporary b' = true ∧
             tbMember tb ∈ Members b' ∧ b' ≠ b) ∧
    (Members b ≠ [] → ∀ project,
       b ∈ Bindings (remote w project) →
       b ∈ Bindings (remote (CleanTemporaryBindings env p (OfGCP o) w).2 project)).
Proof.
  intros env p o w b Hnone. split; [|split].
  - destruct (List_listed env p o w) as (lines & Hlog & Hall). simpl in Hlog.
    exists lines. split; [done|]. split; [done|].
    intros m Hm Hin. rewrite Forall_forall in Hall.
    destruct (Hall _ Hin) as [Heq|(b' & m' & _ & _ & _ & Huser & Heq)];
      [done|].
    injection Heq as _ <- _ _. apply Hnone in Hm. congruence.
  - intros bs tb Htb. apply collectFrom_user in Htb as (Huser & b' & Hb' & _ & Htemp & Hm).
    split; [done|]. exists b'. rewrite Nat.sub_0_r in Hb'.
    repeat split; try done. intros ->. apply Hnone in Hm. congruence.
  - intros Hsome project Hb. by apply Clean_keeps.
Qed.

(** C9 at work: Clean with no member filter over [robots] and a temporary
    binding of a user. *)
Lemma only_user_members_are_considered_witness :
  (∀ m, m ∈ Members robots → HasPrefix m "user:" = false) ∧
  robots ∈ Bindings
    (remote (CleanTemporaryBindings calmEnv (NewGCPProvider false)
               (OfGCP (mkOptions "p" [] "" 0))
               (store "p" (mkPolicy [shared; robots] 1) freshWorld)).2 "p").
Proof.
  assert (Hnone : ∀ m, m ∈ Members robots → HasPrefix m "user:" = false).
  { intros m Hm. apply list_elem_of_singleton in Hm as ->. reflexivity. }
  split; [exact Hnone|].
  apply (only_user_members_are_considered calmEnv (NewGCPProvider false)
           (mkOptions "p" [] "" 0)
           (store "p" (mkPolicy [shared; robots] 1) freshWorld) robots Hnone).
  - discriminate.
  - right. left.
Defined.

(** ** Clean writes the rebuilt collection *)

Section CleanWrites.

Context (env : Env).

(** With no repeated match, a Clean that gets its policy and finds matches
    passes the rebuilt collection to set-policy. *)
Lemma Clean_writes_rebuilt p o w :
  dryRun p = false →
  apiError env (calls w) = None →
  collectTemporary (User o) (Bindings (remote w (Project o))) ≠ [] →
  (∀ b, b ∈ Bindings (remote w (Project o)) → isTemporary b = true →
        NoDup (filter (λ m, memberSelected (User o) m) (Members b))) →
  trace (CleanTemporaryBindings env p (OfGCP o) w).2 =
    trace w ++
      [GetIamPolicy (Project o);
       SetIamPolicy (Project o)
         {| Bindings := rebuildBindings (User o) (Bindings (remote w (Project o)));
            Version := policyVersion |}].
Proof.
  intros Hdry Hcall Hfound Hnd. unfold CleanTemporaryBindings.
  on_get env; [|congruence].
  assert (Hpure :
    removeEach (reverse (collectTemporary (User o) (Bindings (remote w (Project o)))))
      (Bindings (remote w (Project o)))
    = Some (rebuildBindings (User o) (Bindings (remote w (Project o))))).
  { apply (removeEach_rebuildBindings (User o) _ []). by apply Forall_forall. }
  destruct (collectTemporary (User o) (Bindings (remote w (Project o))))
    as [|tb found] eqn:Ecollect; [done|].
  cbn [length Nat.eqb]. rewrite Hdry.
  match goal with |- context [removeLoop ?steps ?bs ?w0] =>
    pose proof (removeLoop_bindings steps bs w0) as Hbs;
    pose proof (removeLoop_trace steps bs w0) as Htr;
    destruct (removeLoop steps bs w0) as [[bs'|] w3]
  end; rewrite announce_trace in Htr; simpl in Hbs, Htr;
    rewrite Hpure in Hbs; [|done].
  injection Hbs as ->.
  match goal with |- context [setIAMPolicy env ?pr ?pol ?w1] =>
    pose proof (setIAMPolicy_trace env pr pol w1) as Hset;
    destruct (setIAMPolicy env pr pol w1) as [[err|] w4]
  end; simpl in Hset |- *; by rewrite Hset, Htr, <- app_assoc.
Qed.

End CleanWrites.

(** C4.  The members of a binding are a set.  For every policy whose
    bindings list no member twice, and every member filter: processing the
    matches collected by CleanTemporaryBindings in reverse index order
    (removing the member, deleting the binding when it becomes empty) does
    not panic and produces the same bindings list as rebuilding the
    collection while excluding the matched members, surviving bindings in
    their original relative order; it does so inside the removal loop of
    CleanTemporaryBindings, which then passes the rebuilt collection to
    set-policy. *)
Theorem reverse_removal_is_rebuild :
  ∀ (user : string) (bs : list Binding),
    membersAreSets bs →
    removeInReverse (collectTemporary user bs) bs = Some (rebuildBindings user bs) ∧
    (∀ w, (removeLoop (reverse (collectTemporary user bs)) bs w).1
          = Some (rebuildBindings user bs)) ∧
    (∀ env p o w,
       User o = user → Bindings (remote w (Project o)) = bs →
       dryRun p = false → apiError env (calls w) = None →
       collectTemporary user bs ≠ [] →
       trace (CleanTemporaryBindings env p (OfGCP o) w).2 =
         trace w ++
           [GetIamPolicy (Project o);
            SetIamPolicy (Project o)
              {| Bindings := rebuildBindings user bs;
                 Version := policyVersion |}]).
Proof.
  intros user bs Hsets.
  assert (Hnd : ∀ b, b ∈ bs → isTemporary b = true →
            NoDup (filter (λ m, memberSelected user m) (Members b))).
  { intros b Hb _. apply NoDup_filter. by apply Hsets. }
  assert (Hpure : removeInReverse (collectTemporary user bs) bs
                  = Some (rebuildBindings user bs)).
  { unfold removeInReverse, collectTemporary.
    apply (removeEach_rebuildBindings user bs []). by apply Forall_forall. }
  split; [exact Hpure|]. split.
  - intros w. by rewrite removeLoop_bindings.
  - intros env p o w <- <- Hdry Hcall Hfound. by apply Clean_writes_rebuilt.
Qed.

(** ** The removal properties at work *)


(** C4 at work: the same policy, cleaned for [b@example.com]. *)
Lemma reverse_removal_is_rebuild_witness :
  membersAreSets [permanent; shared] ∧
  removeInReverse (collectTemporary "b@example.com" [permanent; shared])
      [permanent; shared]
    = Some [permanent; withMembers shared ["user:a@example.com"]].
Proof.
  assert (Hsets : membersAreSets [permanent; shared]).
  { intros b Hb. apply list_elem_of_In in Hb. simpl in Hb.
    destruct Hb as [<-|[<-|[]]]; apply (bool_decide_unpack _); reflexivity. }
  split; [exact Hsets|].
  destruct (reverse_removal_is_rebuild "b@example.com" [permanent; shared] Hsets)
    as [Hrun _].
  rewrite Hrun. reflexivity.
Defined.

(** * Further properties of the provider *)

(** ** Roles, members and created bindings *)

Section Formatting.

Lemma HasPrefix_app p s : HasPrefix (p +:+ s) p = true.
Proof.
  unfold HasPrefix. induction p as [|a p IH]; simpl.
  - by destruct s.
  - destruct (Ascii.ascii_dec a a); [exact IH|done].
Qed.

Lemma substring_all s : String.substring 0 (String.length s) s = s.
Proof. induction s as [|a s IH]; simpl; [done|by rewrite IH]. Qed.

Lemma length_app_string p s :
  String.length (p +:+ s) = (String.length p + String.length s)%nat.
Proof. induction p as [|a p IH]; simpl; [done|by rewrite IH]. Qed.

Lemma TrimPrefix_app p s : TrimPrefix (p +:+ s) p = s.
Proof.
  unfold TrimPrefix. rewrite HasPrefix_app, length_app_string.
  replace (String.length p + String.length s - String.length p)%nat
    with (String.length s) by lia.
  induction p as [|a p IH]; simpl; [apply substring_all|exact IH].
Qed.

Lemma formatMember_inj user user' :
  formatMember user = formatMember user' → user = user'.
Proof. unfold formatMember. apply (inj (String.app "user:")). Qed.

Lemma memberSelected_formatMember filter user :
  memberSelected filter (formatMember user)
  = bool_decide (filter = "" ∨ filter = user).
Proof.
  unfold memberSelected. unfold formatMember at 1. rewrite HasPrefix_app.
  cbn [andb]. destruct (decide (filter = "")) as [->|Hne].
  { rewrite (bool_decide_true ("" = "")) by done. cbn [orb].
    symmetry. apply bool_decide_true. by left. }
  rewrite (bool_decide_false (filter = "")) by done. cbn [orb].
  apply bool_decide_ext. split.
  - intros H. right. symmetry. by apply formatMember_inj.
  - intros [? | ->]; done.
Qed.

End Formatting.

(** X1.  formatRole always returns a role with the standard prefix, it
    leaves a role that has the prefix as it is, and applying it twice is
    applying it once. *)
Theorem formatRole_prefixed_idempotent :
  ∀ role : string,
    HasPrefix (formatRole role) rolePrefix = true ∧
    formatRole (formatRole role) = formatRole role ∧
    (HasPrefix role rolePrefix = true → formatRole role = role).
Proof.
  intros role.
  assert (Hp : HasPrefix (formatRole role) rolePrefix = true).
  { unfold formatRole. destruct (HasPrefix role rolePrefix) eqn:E; [done|].
    apply HasPrefix_app. }
  split; [exact Hp|]. split.
  - unfold formatRole at 1. by rewrite Hp.
  - intros H. unfold formatRole. by rewrite H.
Qed.

(** X2.  The binding createBinding makes for a user is one that List and
    Clean look for: it carries the marker, its only member is the user's
    member string, and the inner loop of Clean collects it exactly when no
    member filter is given or the filter is that very user. *)
Theorem created_binding_is_found :
  ∀ (env : Env) (role user : string) (ttl : Z) (w : World)
    (filter : string) (i : nat),
    isTemporary (createBinding env role (formatMember user) ttl w).1 = true ∧
    Members (createBinding env role (formatMember user) ttl w).1
      = [formatMember user] ∧
    Role (createBinding env role (formatMember user) ttl w).1 = role ∧
    matchesOf filter (createBinding env role (formatMember user) ttl w).1 i
      = if bool_decide (filter = "" ∨ filter = user)
        then [matchOf (createBinding env role (formatMember user) ttl w).1 i
                (formatMember user)]
        else [].
Proof.
  intros env role user ttl w filter i.
  assert (Htemp :
    isTemporary (createBinding env role (formatMember user) ttl w).1 = true).
  { unfold createBinding, UnixNano, isTemporary. cbn [fst Condition Title].
    apply HasPrefix_app. }
  split; [exact Htemp|]. split; [done|]. split; [done|].
  unfold matchesOf. rewrite Htemp.
  change (Members (createBinding env role (formatMember user) ttl w).1)
    with [formatMember user].
  rewrite filter_cons, filter_nil.
  destruct (decide (memberSelected filter (formatMember user))) as [Hs|Hs];
    rewrite memberSelected_formatMember in Hs;
    destruct (bool_decide (filter = "" ∨ filter = user)); done.
Qed.

(** X12.  What List shows as the expiry of a binding made by createBinding
    is the RFC 3339 rendering of the creation time plus the TTL, still
    followed by the two characters that close the condition expression:
    the second TrimPrefix looks for them at the front, where a rendering
    that does not begin with them leaves nothing to trim. *)
Theorem listed_expiry_keeps_closing_characters :
  ∀ (env : Env) (role member : string) (ttl : Z) (w : World),
    HasPrefix (rfc3339 env (clock env (calls w) (reads w) + ttl) +:+ "')") "')"
      = false →
    args (foundLine (createBinding env role member ttl w).1 member)
    = [S_ role; S_ member;
       S_ (rfc3339 env (clock env (calls w) (reads w) + ttl) +:+ "')");
       S_ (conditionTitle (createBinding env role member ttl w).1)].
Proof.
  intros env role member ttl w Hfront. unfold foundLine. cbn [args].
  do 2 f_equal. f_equal. f_equal.
  change (conditionExpression (createBinding env role member ttl w).1)
    with ("request.time < timestamp('" +:+
          (rfc3339 env (clock env (calls w) (reads w) + ttl) +:+ "')")).
  rewrite TrimPrefix_app. unfold TrimPrefix. by rewrite Hfront.
Qed.

(** X12 at work: an hour granted in a fresh world. *)
Lemma listed_expiry_keeps_closing_characters_witness :
  HasPrefix (rfc3339 calmEnv (clock calmEnv (calls freshWorld) (reads freshWorld)
                              + 3600) +:+ "')") "')" = false ∧
  args (foundLine (createBinding calmEnv "roles/viewer" "user:a@example.com"
                     3600 freshWorld).1 "user:a@example.com")
  = [S_ "roles/viewer"; S_ "user:a@example.com"; S_ "3600')";
     S_ "gta_temporary_access_1"].
Proof.
  assert (Hfront :
    HasPrefix (rfc3339 calmEnv (clock calmEnv (calls freshWorld) (reads freshWorld)
                                + 3600) +:+ "')") "')" = false)
    by (vm_compute; reflexivity).
  split; [exact Hfront|].
  rewrite (listed_expiry_keeps_closing_characters calmEnv "roles/viewer"
             "user:a@example.com" 3600 freshWorld Hfront).
  vm_compute. reflexivity.
Defined.

(** ** What Grant stores *)

Section GrantStores.

Context (env : Env).

Lemma createBinding_grantedTo role member ttl w :
  grantedTo member (createBinding env (formatRole role) member ttl w).1.
Proof.
  split; [done|]. split.
  - unfold createBinding, UnixNano, isTemporary. cbn [fst Condition Title].
    apply HasPrefix_app.
  - change (Role (createBinding env (formatRole role) member ttl w).1)
      with (formatRole role).
    unfold formatRole. destruct (HasPrefix role rolePrefix) eqn:E; [done|].
    apply HasPrefix_app.
Qed.

Lemma createBinding_world role member ttl w :
  remote (createBinding env role member ttl w).2 = remote w ∧
  calls (createBinding env role member ttl w).2 = calls w ∧
  trace (createBinding env role member ttl w).2 = trace w.
Proof. done. Qed.

Lemma grantRole_stored o member p0 w0 st created role :
  grantStored o member p0 w0 st created →
  ∃ created', grantStored o member p0 w0 (grantRole env o member st role) created'.
Proof.
  destruct st as [[p errs] w]. intros [H1 H2 H3 H4 H5 H6]. simpl in *.
  unfold grantRole. destruct (dryRun p) eqn:Hdry.
  { exists created. by constructor; simpl; try done; try congruence. }
  on_get env.
  2: { exists created. constructor; simpl; try done; try congruence.
       eapply emits_trans; [exact H5|]. by eapply emits_one. }
  match goal with |- context [createBinding env ?r ?m ?t ?w1] =>
    pose proof (createBinding_grantedTo role m t w1) as Hb;
    assert (Hrole : Role (createBinding env r m t w1).1 = r) by done;
    destruct (createBinding_world r m t w1) as (Hrem & Hcalls & Htr);
    destruct (createBinding env r m t w1) as [binding w2]
  end. simpl in Hb, Hrole, Hrem, Hcalls, Htr.
  set (policy := withBindings _ _).
  assert (Hpolicy : appendsTo (Project o) (Bindings (remote w0 (Project o)))
                      (SetIamPolicy (Project o) policy)).
  { split; [done|]. subst policy. simpl. rewrite H1, <- app_assoc.
    by eexists. }
  assert (Hemits : emits (appendsTo (Project o) (Bindings (remote w0 (Project o))))
                     w0 (called (SetIamPolicy (Project o) policy) w2)).
  { eapply emits_trans; [exact H5|].
    exists [GetIamPolicy (Project o); SetIamPolicy (Project o) policy].
    split; [simpl; by rewrite Htr, <- app_assoc|].
    apply Forall_cons. split; [done|].
    apply Forall_cons. split; [exact Hpolicy|constructor]. }
  on_set env.
  - exists created. constructor; simpl; try done; try congruence.
    intros q Hq. rewrite Hrem. by apply H2.
  - exists (created ++ [binding]). constructor; simpl; try done; try congruence.
    + rewrite bool_decide_true by done. subst policy. simpl.
      by rewrite H1, app_assoc.
    + intros q Hq. rewrite bool_decide_false by done. rewrite Hrem. by apply H2.
    + rewrite H3, fmap_app, app_assoc. f_equal. cbn [fmap list_fmap].
      unfold grantOf. by rewrite Hrole.
    + apply Forall_app. split; [done|]. by constructor.
Qed.

Lemma grant_loop_stored o member p0 w0 roles : ∀ st created,
  grantStored o member p0 w0 st created →
  ∃ created',
    grantStored o member p0 w0 (foldl (grantRole env o member) st roles) created'.
Proof.
  induction roles as [|role roles IH]; intros st created Hst.
  - by exists created.
  - simpl. destruct (grantRole_stored o member p0 w0 st created role Hst)
      as (created1 & Hst1).
    by apply (IH _ created1).
Qed.

(** The options Grant works with once the user is resolved. *)
Lemma Grant_stored p o w :
  ∃ o' created,
    (Grant env p (OfGCP o) w).1.1.2 = OfGCP o' ∧
    Project o' = Project o ∧
    grantStored o' (formatMember (User o')) p w
      ((Grant env p (OfGCP o) w).1.2, [], (Grant env p (OfGCP o) w).2) created.
Proof.
  assert (Hidle : ∀ w', onlyLogged w w' →
            grantStored o (formatMember (User o)) p w (p, [], w') []).
  { intros w' (Hr & _ & _ & Ht). constructor; simpl; rewrite ?app_nil_r, ?Hr;
      try done. by apply emits_same. }
  unfold Grant.
  set (resolved := if bool_decide (User o = "") then _ else _).
  assert (Hres : (∃ e, resolved = Err e) ∨
                 (∃ o1 w1, resolved = Ok (o1, w1) ∧ Project o1 = Project o ∧
                           onlyLogged w w1)).
  { subst resolved. case_bool_decide as Huser.
    - destruct (getCurrentUser env) as [user|e].
      + right. by eexists _, _.
      + left. by eexists.
    - right. by eexists _, _. }
  destruct Hres as [(e & ->)|(o1 & w1 & -> & Hpr & Hw1)].
  { exists o, []. split; [done|]. split; [done|]. by apply Hidle. }
  assert (Hstart : grantStored o1 (formatMember (User o1)) p w1 (p, [], w1) []).
  { constructor; simpl; rewrite ?app_nil_r; try done. apply emits_refl. }
  destruct (grant_loop_stored o1 (formatMember (User o1)) p w1 (Roles o1)
              (p, [], w1) [] Hstart) as (created & Hloop).
  destruct (foldl _ _ _) as [[p2 errs] w2].
  destruct Hloop as [H1 H2 H3 H4 H5 H6]. destruct Hw1 as (Hr & Hc & Hrd & Ht).
  simpl in *. rewrite Hr in *.
  assert (H5' : emits (appendsTo (Project o1) (Bindings (remote w (Project o1))))
                  w w2).
  { destruct H5 as (evs & Hev & Hall). exists evs. by rewrite Hev, Ht. }
  exists o1, created. 
  destruct (0 <? length errs)%nat;
    [destruct (length (grantedRoles p2) =? 0)%nat|];
    (split; [done|]; split; [done|]; constructor; simpl; done).
Qed.

End GrantStores.

(** X3.  Grant only appends: every policy it passes to set-policy, and the
    policy stored for the project when it is over, begin with the bindings
    the project had, unchanged and in their order; every policy call is
    for the project of the options, and the policies of the other projects
    are as they were. *)
Theorem Grant_only_appends :
  ∀ (env : Env) (p : GCPProvider) (o : GCPOptions) (w : World),
    Bindings (remote w (Project o))
      `prefix_of` Bindings (remote (Grant env p (OfGCP o) w).2 (Project o)) ∧
    (∀ q, q ≠ Project o → remote (Grant env p (OfGCP o) w).2 q = remote w q) ∧
    emits (appendsTo (Project o) (Bindings (remote w (Project o))))
      w (Grant env p (OfGCP o) w).2.
Proof.
  intros env p o w.
  destruct (Grant_stored env p o w) as (o' & created & _ & Hpr & Hst).
  destruct Hst as [H1 H2 H3 H4 H5 H6]. simpl in *. rewrite Hpr in *.
  split; [by exists created|]. by split.
Qed.

(** X4.  What Grant records is what it stored: the bindings the project
    has gained are, in order, one per grant appended to the grantedRoles
    list, each grant naming the role and the condition title of its
    binding; every such binding has the resolved user as its only member,
    a role with the standard prefix and a marked title. *)
Theorem Grant_records_what_it_stored :
  ∀ (env : Env) (p : GCPProvider) (o : GCPOptions) (w : World),
    ∃ o' created,
      (Grant env p (OfGCP o) w).1.1.2 = OfGCP o' ∧
      Bindings (remote (Grant env p (OfGCP o) w).2 (Project o))
        = Bindings (remote w (Project o)) ++ created ∧
      grantedRoles (Grant env p (OfGCP o) w).1.2
        = grantedRoles p ++ (grantOf <$> created) ∧
      Forall (grantedTo (formatMember (User o'))) created.
Proof.
  intros env p o w.
  destruct (Grant_stored env p o w) as (o' & created & Ho' & Hpr & Hst).
  destruct Hst as [H1 H2 H3 H4 H5 H6]. simpl in *. rewrite Hpr in *.
  by exists o', created.
Qed.

(** X5.  When no user is given and the credentials do not resolve to a
    non-empty email (the OAuth2 service or the request fails, or the email
    is empty), Grant fails at once with an error that says so: no role is
    processed, nothing is logged, no policy call is made, and the provider
    and the options are as they were. *)
Theorem Grant_needs_an_identity :
  ∀ (env : Env) (p : GCPProvider) (o : GCPOptions) (w : World),
    User o = "" →
    (∀ email, userinfo env = Email email → email = "") →
    ∃ e, Grant env p (OfGCP o) w
         = (Some ("failed to get current user: " +:+ e), OfGCP o, p, w).
Proof.
  intros env p o w Huser Hno. unfold Grant, getCurrentUser.
  rewrite bool_decide_true by done.
  destruct (userinfo env) as [e|e|email] eqn:Hinfo; [by eexists..|].
  rewrite bool_decide_true by (by apply Hno). by eexists.
Qed.

(** X5 at work: credentials without an email. *)
Lemma Grant_needs_an_identity_witness :
  User (mkOptions "p" ["viewer"] "" 3600) = "" ∧
  (∀ email, userinfo (mkEnv (λ _, None) (λ _ _, 0) (Email "") (λ _, ""))
            = Email email → email = "") ∧
  ∃ e, Grant (mkEnv (λ _, None) (λ _ _, 0) (Email "") (λ _, ""))
         (NewGCPProvider false) (OfGCP (mkOptions "p" ["viewer"] "" 3600))
         freshWorld
       = (Some ("failed to get current user: " +:+ e),
          OfGCP (mkOptions "p" ["viewer"] "" 3600), NewGCPProvider false,
          freshWorld).
Proof.
  assert (Huser : User (mkOptions "p" ["viewer"] "" 3600) = "") by reflexivity.
  assert (Hno : ∀ email,
            userinfo (mkEnv (λ _, None) (λ _ _, 0) (Email "") (λ _, ""))
            = Email email → email = "") by (by intros email [= <-]).
  split; [exact Huser|]. split; [exact Hno|].
  exact (Grant_needs_an_identity _ (NewGCPProvider false) _ freshWorld Huser Hno).
Defined.

(** ** Revoke after Grant *)

Section RevokeRestores.

Context (env : Env).

Lemma grantedTo_matches member c :
  grantedTo member c → revokeMatches (grantOf c) c = true.
Proof.
  intros (_ & Htemp & _). unfold revokeMatches, grantOf, isTemporary,
    conditionTitle in *. simpl.
  rewrite bool_decide_true by done. destruct (Condition c); [|done].
  by rewrite bool_decide_true.
Qed.

(** The scan for the grant of a created binding that comes right after
    bindings the grant does not name removes that binding. *)
Lemma revokeBindings_created member bs0 c rest :
  (∀ b, b ∈ bs0 → revokeMatches (grantOf c) b = false) →
  grantedTo member c →
  revokeBindings (grantOf c) member (bs0 ++ c :: rest) = bs0 ++ rest.
Proof.
  intros Hbefore Hc. unfold revokeBindings.
  rewrite (revokeScan_first (grantOf c) member (bs0 ++ c :: rest) 0
             (bs0 ++ c :: rest) (length bs0) c).
  - rewrite Nat.add_0_l.
    rewrite removeMember_spec by (by apply list_lookup_middle).
    destruct Hc as (-> & _). unfold withoutMember.
    rewrite filter_cons_False, filter_nil by (by intros H; apply H).
    rewrite take_app_length. f_equal.
    rewrite (cons_middle c), app_assoc. apply drop_app_length'.
    rewrite length_app. simpl. lia.
  - by apply list_lookup_middle.
  - by eapply grantedTo_matches.
  - intros k b Hk Hb. apply Hbefore. rewrite lookup_app_l in Hb by done.
    by eapply list_elem_of_lookup_2.
Qed.

Lemma reliableFrom_le k k' : (k ≤ k')%nat → reliableFrom env k → reliableFrom env k'.
Proof. intros Hle H j Hj. apply H. lia. Qed.

Lemma revoke_loop_restores p o member bs0 created : ∀ errs w,
  dryRun p = false →
  reliableFrom env (calls w) →
  Bindings (remote w (Project o)) = bs0 ++ created →
  Forall (grantedTo member) created →
  (∀ b c, b ∈ bs0 → c ∈ created → revokeMatches (grantOf c) b = false) →
  (foldl (revokeRole env p o member) (errs, w) (grantOf <$> created)).1 = errs ∧
  Bindings (remote (foldl (revokeRole env p o member) (errs, w)
                      (grantOf <$> created)).2 (Project o)) = bs0 ∧
  ∀ q, q ≠ Project o →
       remote (foldl (revokeRole env p o member) (errs, w)
                 (grantOf <$> created)).2 q = remote w q.
Proof.
  induction created as [|c created IH]; intros errs w Hdry Hrel Hrem Hall Hfor.
  - simpl. by rewrite app_nil_r in Hrem.
  - apply Forall_cons in Hall as [Hc Hall]. rewrite fmap_cons. simpl foldl.
    assert (Hround : ∃ w1,
      revokeRole env p o member (errs, w) (grantOf c) = (errs, w1) ∧
      calls w1 = S (S (calls w)) ∧
      Bindings (remote w1 (Project o)) = bs0 ++ created ∧
      ∀ q, q ≠ Project o → remote w1 q = remote w q).
    { unfold revokeRole. rewrite Hdry. on_get env.
      2: { rewrite (Hrel (calls w)) in Hcall by lia. done. }
      rewrite Hrem, revokeBindings_created; [|intros b Hb; apply Hfor; [done|left]|done].
      on_set env.
      { rewrite (Hrel (S (calls w))) in Hcall0 by lia. done. }
      eexists. split; [done|]. simpl. split; [done|].
      rewrite bool_decide_true by done. split; [done|].
      intros q Hq. by rewrite bool_decide_false. }
    destruct Hround as (w1 & -> & Hcalls & Hrem1 & Hother).
    destruct (IH errs w1 Hdry) as (He & Hb & Ho); try done.
    + eapply reliableFrom_le; [|exact Hrel]. lia.
    + intros b c' Hb Hc'. apply Hfor; [done|by right].
    + split; [done|]. split; [done|]. intros q Hq. rewrite Ho by done.
      by apply Hother.
Qed.

End RevokeRestores.

(** X6.  Revoke undoes Grant.  Take a provider with no grant recorded,
    dry-run disabled, and run Grant, whatever succeeds or fails in it.  If
    the policy calls made from then on succeed, and no binding the project
    had beforehand carries both the role and the binding ID of one of the
    recorded grants, then Revoke with the options Grant left returns nil
    and the project has exactly the bindings it had before Grant, in their
    order; the other projects are untouched. *)
Theorem Revoke_undoes_Grant :
  ∀ (env : Env) (p : GCPProvider) (o : GCPOptions) (w : World),
    dryRun p = false →
    grantedRoles p = [] →
    reliableFrom env (calls (Grant env p (OfGCP o) w).2) →
    (∀ b, b ∈ Bindings (remote w (Project o)) →
          ownedBy (grantedRoles (Grant env p (OfGCP o) w).1.2) b = false) →
    (Revoke env (Grant env p (OfGCP o) w).1.2 (Grant env p (OfGCP o) w).1.1.2
       (Grant env p (OfGCP o) w).2).1 = None ∧
    Bindings (remote (Revoke env (Grant env p (OfGCP o) w).1.2
                        (Grant env p (OfGCP o) w).1.1.2
                        (Grant env p (OfGCP o) w).2).2 (Project o))
      = Bindings (remote w (Project o)) ∧
    ∀ q, q ≠ Project o →
         remote (Revoke env (Grant env p (OfGCP o) w).1.2
                   (Grant env p (OfGCP o) w).1.1.2
                   (Grant env p (OfGCP o) w).2).2 q = remote w q.
Proof.
  intros env p o w Hdry Hfresh.
  destruct (Grant_stored env p o w) as (o' & created & Ho' & Hpr & Hst).
  destruct (Grant env p (OfGCP o) w) as [[[err opts'] p'] w'].
  simpl in *. subst opts'. destruct Hst as [H1 H2 H3 H4 H5 H6]. simpl in *.
  rewrite Hfresh in H3. simpl in H3. rewrite Hpr in *. intros Hrel Hown.
  unfold Revoke. rewrite H3.
  destruct created as [|c created].
  { simpl. rewrite app_nil_r in H1. by rewrite H1. }
  cbn [length fmap list_fmap Nat.eqb].
  destruct (revoke_loop_restores env p' o' (formatMember (User o'))
              (Bindings (remote w (Project o))) (c :: created) [] w')
    as (He & Hb & Hq); try done.
  { congruence. }
  { by rewrite Hpr. }
  { intros b c' Hb Hc'. specialize (Hown b Hb). rewrite H3 in Hown.
    unfold ownedBy in Hown.
    destruct (revokeMatches (grantOf c') b) eqn:Hm; [|done].
    assert (existsb (λ g, revokeMatches g b) (grantOf <$> c :: created) = true);
      [|congruence].
    apply existsb_exists. exists (grantOf c'). split; [|done].
    apply list_elem_of_In. by apply list_elem_of_fmap_2. }
  rewrite Hpr in *. rewrite fmap_cons in *.
  destruct (foldl _ _ _) as [errs w2]. simpl in *. subst errs. simpl.
  split; [done|]. split; [done|]. intros q Hq'. rewrite Hq by done. by apply H2.
Qed.

(** X6 at work: two roles granted next to an unconditional binding, then
    revoked. *)
Lemma Revoke_undoes_Grant_witness :
  dryRun (NewGCPProvider false) = false ∧
  grantedRoles (NewGCPProvider false) = [] ∧
  reliableFrom calmEnv
    (calls (Grant calmEnv (NewGCPProvider false) (OfGCP twoRoles) ownerWorld).2) ∧
  (∀ b, b ∈ Bindings (remote ownerWorld (Project twoRoles)) →
        ownedBy (grantedRoles (Grant calmEnv (NewGCPProvider false)
                                 (OfGCP twoRoles) ownerWorld).1.2) b = false) ∧
  Bindings (remote (Revoke calmEnv
                      (Grant calmEnv (NewGCPProvider false) (OfGCP twoRoles)
                         ownerWorld).1.2
                      (Grant calmEnv (NewGCPProvider false) (OfGCP twoRoles)
                         ownerWorld).1.1.2
                      (Grant calmEnv (NewGCPProvider false) (OfGCP twoRoles)
                         ownerWorld).2).2 "p")
    = [permanent].
Proof.
  assert (Hdry : dryRun (NewGCPProvider false) = false) by reflexivity.
  assert (Hfresh : grantedRoles (NewGCPProvider false) = []) by reflexivity.
  assert (Hrel : reliableFrom calmEnv
            (calls (Grant calmEnv (NewGCPProvider false) (OfGCP twoRoles)
                      ownerWorld).2)) by (intros k _; reflexivity).
  assert (Hown : ∀ b, b ∈ Bindings (remote ownerWorld (Project twoRoles)) →
            ownedBy (grantedRoles (Grant calmEnv (NewGCPProvider false)
                                     (OfGCP twoRoles) ownerWorld).1.2) b = false).
  { intros b Hb. apply list_elem_of_singleton in Hb as ->.
    vm_compute. reflexivity. }
  split; [exact Hdry|]. split; [exact Hfresh|]. split; [exact Hrel|].
  split; [exact Hown|].
  destruct (Revoke_undoes_Grant calmEnv (NewGCPProvider false) twoRoles
              ownerWorld Hdry Hfresh Hrel Hown) as (_ & Hb & _).
  exact Hb.
Defined.

(** ** Revoke on its own *)

Section RevokeCalls.

Context (env : Env).

Lemma revoke_loop_calls p o member grs : ∀ errs w,
  ∃ evs,
    trace (foldl (revokeRole env p o member) (errs, w) grs).2 = trace w ++ evs ∧
    length (filter isFetch evs) = (if dryRun p then 0 else length grs)%nat ∧
    (length evs ≤ 2 * length (filter isFetch evs))%nat.
Proof.
  induction grs as [|g grs IH]; intros errs w.
  - exists []. rewrite app_nil_r. by destruct (dryRun p).
  - simpl foldl.
    assert (Hround : ∃ errs1 w1 evs1,
      revokeRole env p o member (errs, w) g = (errs1, w1) ∧
      trace w1 = trace w ++ evs1 ∧
      length (filter isFetch evs1) = (if dryRun p then 0 else 1)%nat ∧
      (length evs1 ≤ 2 * length (filter isFetch evs1))%nat).
    { unfold revokeRole. destruct (dryRun p).
      { eexists _, _, []. split; [done|]. simpl. by rewrite app_nil_r. }
      on_get env.
      2: { eexists _, _, [_]. split; [done|]. simpl. split; [done|].
           split; [done|simpl; lia]. }
      on_set env.
      - eexists _, _, [_; _]. split; [done|]. simpl. rewrite <- app_assoc.
        split; [done|]. split; [done|simpl; lia].
      - eexists _, _, [_; _]. split; [done|]. simpl. rewrite <- app_assoc.
        split; [done|]. split; [done|simpl; lia]. }
    destruct Hround as (errs1 & w1 & evs1 & -> & Htr1 & Hf1 & Hl1).
    destruct (IH errs1 w1) as (evs & Htr & Hf & Hl).
    exists (evs1 ++ evs). rewrite Htr, Htr1, <- app_assoc. split; [done|].
    rewrite filter_app, !length_app, Hf, Hf1. simpl.
    split; [by destruct (dryRun p)|]. destruct (dryRun p); lia.
Qed.

End RevokeCalls.

(** X7.  Revoke never fails on the provider's own options: whatever the
    remote side answers, it returns nil.  In dry-run mode it makes no
    policy call; otherwise it fetches the policy once for each recorded
    grant, also after a failure, and makes at most one write per fetch. *)
Theorem Revoke_never_fails :
  ∀ (env : Env) (p : GCPProvider) (o : GCPOptions) (w : World),
    (Revoke env p (OfGCP o) w).1 = None ∧
    ∃ evs,
      trace (Revoke env p (OfGCP o) w).2 = trace w ++ evs ∧
      length (filter isFetch evs)
        = (if dryRun p then 0 else length (grantedRoles p))%nat ∧
      (length evs ≤ 2 * length (filter isFetch evs))%nat.
Proof.
  intros env p o w. unfold Revoke.
  destruct (length (grantedRoles p) =? 0)%nat eqn:Hnone.
  { split; [done|]. exists []. simpl. rewrite app_nil_r.
    apply Nat.eqb_eq in Hnone. rewrite Hnone. by destruct (dryRun p). }
  destruct (revoke_loop_calls env p o (formatMember (User o)) (grantedRoles p)
              [] w) as (evs & Htr & Hf & Hl).
  destruct (foldl _ _ _) as [errs w2]. simpl in Htr.
  destruct (0 <? length errs)%nat; (split; [done|]); by exists evs.
Qed.

(** ** List *)

Section ListReports.

Context (env : Env).

Lemma listMember_loop user b ms : ∀ found w,
  (foldl (listMember user b) (found, w) ms).1
    = found || negb (bool_decide (filter (λ m, memberSelected user m) ms = [])) ∧
  log (foldl (listMember user b) (found, w) ms).2
    = log w ++ (foundLine b <$> filter (λ m, memberSelected user m) ms) ∧
  onlyLogged w (foldl (listMember user b) (found, w) ms).2.
Proof.
  induction ms as [|m ms IH]; intros found w.
  - simpl. rewrite app_nil_r, orb_false_r. done.
  - simpl foldl. unfold listMember at 2 4 6. rewrite filter_cons.
    destruct (memberSelected user m) eqn:Hsel.
    + rewrite decide_True by done. destruct (IH true (logf Info
        "Found temporary binding: Role=%s, Member=%s, Expires=%s, ID=%s"
        [S_ (Role b); S_ m;
         S_ (TrimPrefix (TrimPrefix (conditionExpression b)
                           "request.time < timestamp('") "')");
         S_ (conditionTitle b)] (found, w).2)) as (H1 & H2 & H3).
      rewrite H1, H2. simpl. rewrite <- app_assoc, orb_true_r.
      split; [done|]. split; [done|]. exact H3.
    + rewrite decide_False by (by intros H). apply IH.
Qed.

Lemma matchesOf_reported user b i rest :
  Forall2 (reportsMatch i (b :: rest))
    (if isTemporary b
     then foundLine b <$> filter (λ m, memberSelected user m) (Members b)
     else [])
    (matchesOf user b i).
Proof.
  unfold matchesOf. destruct (isTemporary b); [|constructor].
  apply Forall2_fmap, Forall_Forall2_diag, Forall_forall. intros m _.
  exists b. simpl. rewrite Nat.sub_diag. by repeat split.
Qed.

Lemma list_loop user bs : ∀ i found w,
  (foldl (listBinding user) (found, w) bs).1
    = found || negb (bool_decide (collectFrom user i bs = [])) ∧
  onlyLogged w (foldl (listBinding user) (found, w) bs).2 ∧
  ∃ lines,
    log (foldl (listBinding user) (found, w) bs).2 = log w ++ lines ∧
    Forall2 (reportsMatch i bs) lines (collectFrom user i bs).
Proof.
  induction bs as [|b bs IH]; intros i found w.
  - simpl. rewrite orb_false_r. split; [done|]. split; [done|].
    exists []. by rewrite app_nil_r.
  - simpl foldl. simpl collectFrom.
    assert (Hround : ∃ found1 w1,
      listBinding user (found, w) b = (found1, w1) ∧
      found1 = found || negb (bool_decide (matchesOf user b i = [])) ∧
      onlyLogged w w1 ∧
      log w1 = log w ++
        (if isTemporary b
         then foundLine b <$> filter (λ m, memberSelected user m) (Members b)
         else [])).
    { unfold listBinding, matchesOf. destruct (isTemporary b); simpl.
      - destruct (listMember_loop user b (Members b) found w) as (H1 & H2 & H3).
        destruct (foldl _ _ _) as [found1 w1]. simpl in *.
        exists found1, w1. split; [done|]. split; [|done]. rewrite H1.
        f_equal. f_equal. apply bool_decide_ext. split.
        + by intros ->.
        + by intros ?%fmap_nil_inv.
      - exists found, w. rewrite app_nil_r, orb_false_r. done. }
    destruct Hround as (found1 & w1 & -> & -> & Hw1 & Hlog1).
    destruct (IH (S i) (found || negb (bool_decide (matchesOf user b i = []))) w1)
      as (H1 & H2 & lines & H3 & H4).
    split; [|split].
    + rewrite H1, <- orb_assoc. f_equal.
      destruct (matchesOf user b i), (collectFrom user (S i) bs); done.
    + destruct Hw1 as (? & ? & ? & ?), H2 as (? & ? & ? & ?).
      repeat split; congruence.
    + eexists. rewrite H3, Hlog1, <- app_assoc. split; [done|].
      apply Forall2_app; [apply matchesOf_reported|].
      eapply Forall2_impl; [exact H4|]. intros line tb (b' & Hb' & Hle & Hr & Hid & ->).
      exists b'. replace (tbIndex tb - i)%nat with (S (tbIndex tb - S i)) by lia.
      repeat split; try done. lia.
Qed.

End ListReports.

(** X8.  List only reads: on the provider's own options it makes one
    fetch and no other policy call, and leaves the stored policies as they
    are.  It returns nil exactly when the fetch succeeds; when the fetch
    fails it logs nothing and returns the error of the fetch, wrapped a
    second time. *)
Theorem List_only_reads :
  ∀ (env : Env) (p : GCPProvider) (o : GCPOptions) (w : World),
    trace (ListTemporaryBindings env p (OfGCP o) w).2
      = trace w ++ [GetIamPolicy (Project o)] ∧
    remote (ListTemporaryBindings env p (OfGCP o) w).2 = remote w ∧
    match apiError env (calls w) with
    | None => (ListTemporaryBindings env p (OfGCP o) w).1 = None
    | Some e =>
        (ListTemporaryBindings env p (OfGCP o) w).1
          = Some ("failed to get IAM policy: failed to get IAM policy: " +:+ e) ∧
        log (ListTemporaryBindings env p (OfGCP o) w).2 = log w
    end.
Proof.
  intros env p o w. unfold ListTemporaryBindings, getIAMPolicy.
  destruct (apiError env (calls w)) as [e|]; [done|]. cbn [Bindings].
  destruct (list_loop (User o) (Bindings (remote w (Project o))) 0 false
              (called (GetIamPolicy (Project o)) w))
    as (_ & (Hr & _ & _ & Ht) & _).
  destruct (foldl _ _ _) as [found w2]. simpl in *.
  by destruct found.
Qed.

(** X9.  List and Clean see the same matches.  When the fetch succeeds,
    the lines List logs are, in order, one found-line per match that Clean
    collects from the same policy with the same member filter, each line
    for the binding and the member of its match, followed by the line that
    nothing was found exactly when Clean collects no match. *)
Theorem List_reports_what_Clean_collects :
  ∀ (env : Env) (p : GCPProvider) (o : GCPOptions) (w : World),
    apiError env (calls w) = None →
    ∃ lines,
      log (ListTemporaryBindings env p (OfGCP o) w).2
        = log w ++ lines ++
          match collectTemporary (User o) (Bindings (remote w (Project o))) with
          | [] => [mkLog Info "No temporary bindings found" []]
          | _ :: _ => []
          end ∧
      Forall2 (reportsMatch 0 (Bindings (remote w (Project o)))) lines
        (collectTemporary (User o) (Bindings (remote w (Project o)))).
Proof.
  intros env p o w Hcall. unfold ListTemporaryBindings, getIAMPolicy.
  rewrite Hcall. cbn [Bindings].
  destruct (list_loop (User o) (Bindings (remote w (Project o))) 0 false
              (called (GetIamPolicy (Project o)) w))
    as (Hfound & _ & lines & Hlog & Hall).
  destruct (foldl _ _ _) as [found w2]. simpl in *. subst found.
  exists lines. split; [|done]. unfold collectTemporary.
  destruct (collectFrom (User o) 0 (Bindings (remote w (Project o)))); simpl.
  - by rewrite Hlog, <- app_assoc.
  - by rewrite Hlog, app_nil_r.
Qed.

(** X9 at work: the stored policy of the examples, listed for one user. *)
Lemma List_reports_what_Clean_collects_witness :
  apiError calmEnv (calls storedWorld) = None ∧
  ∃ lines,
    log (ListTemporaryBindings calmEnv (NewGCPProvider false) cleanB storedWorld).2
      = log storedWorld ++ lines ++ [] ∧
    Forall2 (reportsMatch 0 [permanent; shared]) lines
      [matchOf shared 1 "user:b@example.com"].
Proof.
  assert (Hcall : apiError calmEnv (calls storedWorld) = None) by reflexivity.
  split; [exact Hcall|].
  exact (List_reports_what_Clean_collects calmEnv (NewGCPProvider false)
           (mkOptions "p" [] "b@example.com" 0) storedWorld Hcall).
Defined.

(** ** Clean, then List; what Clean keeps *)

Section CleanKeeps.

Context (env : Env).

(** What a Clean that returned nil has left stored. *)
Lemma Clean_nil_settled p o w w1 :
  dryRun p = false →
  CleanTemporaryBindings env p (OfGCP o) w = (Returned None, w1) →
  collectTemporary (User o) (Bindings (remote w1 (Project o))) = [].
Proof.
  intros Hdry. unfold CleanTemporaryBindings. on_get env; [|done].
  destruct (collectTemporary (User o) (Bindings (remote w (Project o))))
    as [|tb found] eqn:Hfound.
  { intros [= <-]. exact Hfound. }
  cbn [length Nat.eqb]. rewrite Hdry.
  match goal with |- context [removeLoop ?steps ?bs ?w0] =>
    pose proof (removeLoop_bindings steps bs w0) as Hbs;
    destruct (removeLoop steps bs w0) as [[bs'|] w3]
  end; [|done]. simpl in Hbs.
  on_set env; [done|]. intros [= <-]. simpl.
  rewrite bool_decide_true by done. simpl.
  eapply removeInReverse_settles. unfold removeInReverse.
  rewrite Hfound. symmetry. exact Hbs.
Qed.

Lemma rebuild_elem user bs b' :
  b' ∈ rebuildBindings user bs ↔ ∃ b, b ∈ bs ∧ rebuildBinding user b = Some b'.
Proof. unfold rebuildBindings. apply list_elem_of_omap. Qed.

Lemma rebuild_keeps_member user b m :
  m ∈ Members b → memberSelected user m = false →
  ∃ b', rebuildBinding user b = Some b' ∧ Role b' = Role b ∧
        Condition b' = Condition b ∧ m ∈ Members b'.
Proof.
  intros Hm Hsel. unfold rebuildBinding.
  destruct (isTemporary b); [|by exists b].
  assert (Hkept : m ∈ filter (λ m, ¬ memberSelected user m) (Members b)).
  { apply list_elem_of_filter. split; [|done]. rewrite Hsel. intros []. }
  destruct (filter (λ m, memberSelected user m) (Members b)); [by exists b|].
  destruct (filter (λ m, ¬ memberSelected user m) (Members b)) as [|k kept] eqn:E;
    [inversion Hkept|].
  by eexists.
Qed.

Lemma rebuild_only_shrinks user b b' :
  rebuildBinding user b = Some b' →
  Role b' = Role b ∧ Condition b' = Condition b ∧
  sublist (Members b') (Members b).
Proof.
  unfold rebuildBinding. destruct (isTemporary b); [|by intros [= <-]].
  destruct (filter (λ m, memberSelected user m) (Members b));
    [by intros [= <-]|].
  destruct (filter (λ m, ¬ memberSelected user m) (Members b)) as [|k kept] eqn:E;
    [done|].
  intros [= <-]. simpl. rewrite <- E. repeat split. apply sublist_filter.
Qed.

(** With no repeated match, a Clean whose policy calls succeed stores
    the rebuilt collection (which is the policy itself when nothing
    matches). *)
Lemma Clean_stores_rebuilt p o w :
  dryRun p = false →
  apiError env (calls w) = None → apiError env (S (calls w)) = None →
  (∀ b, b ∈ Bindings (remote w (Project o)) → isTemporary b = true →
        NoDup (filter (λ m, memberSelected (User o) m) (Members b))) →
  (CleanTemporaryBindings env p (OfGCP o) w).1 = Returned None ∧
  Bindings (remote (CleanTemporaryBindings env p (OfGCP o) w).2 (Project o))
    = rebuildBindings (User o) (Bindings (remote w (Project o))).
Proof.
  intros Hdry Hcall Hcall' Hnd. unfold CleanTemporaryBindings.
  on_get env; [|congruence].
  assert (Hpure :
    removeEach (reverse (collectTemporary (User o) (Bindings (remote w (Project o)))))
      (Bindings (remote w (Project o)))
    = Some (rebuildBindings (User o) (Bindings (remote w (Project o))))).
  { apply (removeEach_rebuildBindings (User o) _ []). by apply Forall_forall. }
  destruct (collectTemporary (User o) (Bindings (remote w (Project o))))
    as [|tb found] eqn:Ecollect.
  { simpl in *. by injection Hpure as <-. }
  cbn [length Nat.eqb]. rewrite Hdry.
  match goal with |- context [removeLoop ?steps ?bs ?w0] =>
    pose proof (removeLoop_bindings steps bs w0) as Hbs;
    assert (Hcalls : calls (removeLoop steps bs w0).2 = calls w0);
    [clear; generalize bs w0; induction steps as [|? ? IH]; intros bs1 w1;
       [done|simpl; destruct (removeMatch _ bs1); [by rewrite IH|done]]|];
    destruct (removeLoop steps bs w0) as [[bs'|] w3]
  end; simpl in Hbs, Hcalls; rewrite Hpure in Hbs; [|done].
  injection Hbs as ->.
  assert (Hcalls3 : calls w3 = S (calls w)).
  { destruct (announce_onlyLogged p (tb :: found)
                (called (GetIamPolicy (Project o)) w) _ (onlyLogged_refl _))
      as (_ & Hsame & _).
    simpl in Hsame. by rewrite Hcalls, Hsame. }
  on_set env.
  { rewrite Hcalls3 in Hcall1. congruence. }
  simpl. by rewrite bool_decide_true.
Qed.

End CleanKeeps.

(** X10.  After a Clean that returned nil, dry-run disabled, a List with
    the same options whose fetch succeeds finds nothing: it returns nil
    and its only line is that no temporary bindings were found. *)
Theorem List_after_Clean_finds_nothing :
  ∀ (env : Env) (p : GCPProvider) (o : GCPOptions) (w w1 : World),
    dryRun p = false →
    CleanTemporaryBindings env p (OfGCP o) w = (Returned None, w1) →
    apiError env (calls w1) = None →
    (ListTemporaryBindings env p (OfGCP o) w1).1 = None ∧
    log (ListTemporaryBindings env p (OfGCP o) w1).2
      = log w1 ++ [mkLog Info "No temporary bindings found" []].
Proof.
  intros env p o w w1 Hdry Hclean Hcall.
  pose proof (Clean_nil_settled env p o w w1 Hdry Hclean) as Hnone.
  unfold ListTemporaryBindings, getIAMPolicy. rewrite Hcall. cbn [Bindings].
  destruct (list_loop (User o) (Bindings (remote w1 (Project o))) 0 false
              (called (GetIamPolicy (Project o)) w1))
    as (Hfound & _ & lines & Hlog & Hall).
  unfold collectTemporary in Hnone. rewrite Hnone in Hfound, Hall.
  apply Forall2_nil_inv_r in Hall as ->.
  destruct (foldl _ _ _) as [found w2]. simpl in *. subst found. simpl.
  by rewrite Hlog, app_nil_r.
Qed.

(** X10 at work: the examples' policy, cleaned and then listed. *)
Lemma List_after_Clean_finds_nothing_witness :
  dryRun (NewGCPProvider false) = false ∧
  CleanTemporaryBindings calmEnv (NewGCPProvider false) cleanB storedWorld
    = (Returned None, cleanedOnce) ∧
  apiError calmEnv (calls cleanedOnce) = None ∧
  (ListTemporaryBindings calmEnv (NewGCPProvider false) cleanB cleanedOnce).1
    = None.
Proof.
  assert (Hdry : dryRun (NewGCPProvider false) = false) by reflexivity.
  assert (Hfirst :
    CleanTemporaryBindings calmEnv (NewGCPProvider false) cleanB storedWorld
    = (Returned None, cleanedOnce)) by (vm_compute; reflexivity).
  assert (Hcall : apiError calmEnv (calls cleanedOnce) = None) by reflexivity.
  split; [exact Hdry|]. split; [exact Hfirst|]. split; [exact Hcall|].
  destruct (List_after_Clean_finds_nothing calmEnv (NewGCPProvider false)
              (mkOptions "p" [] "b@example.com" 0) storedWorld cleanedOnce
              Hdry Hfirst Hcall) as [Hnil _].
  exact Hnil.
Defined.

(** X11.  Clean removes the selected members and nothing else.  Take a
    policy in which no temporary binding lists a selected member twice,
    dry-run disabled, the fetch and the write succeeding.  Clean returns
    nil, and in the policy then stored: every binding that is not
    temporary is still there as it was; every member that the filter does
    not select is still in a binding with the role and condition it was
    under; every binding comes from a binding of the fetched policy, with
    its role and condition and members among those it had, in order; and
    no temporary binding has a selected member left. *)
Theorem Clean_removes_selected_members_only :
  ∀ (env : Env) (p : GCPProvider) (o : GCPOptions) (w : World),
    dryRun p = false →
    apiError env (calls w) = None →
    apiError env (S (calls w)) = None →
    (∀ b, b ∈ Bindings (remote w (Project o)) → isTemporary b = true →
          NoDup (filter (λ m, memberSelected (User o) m) (Members b))) →
    (CleanTemporaryBindings env p (OfGCP o) w).1 = Returned None ∧
    (∀ b, b ∈ Bindings (remote w (Project o)) → isTemporary b = false →
       b ∈ Bindings (remote (CleanTemporaryBindings env p (OfGCP o) w).2
                       (Project o))) ∧
    (∀ b m, b ∈ Bindings (remote w (Project o)) → m ∈ Members b →
       memberSelected (User o) m = false →
       ∃ b', b' ∈ Bindings (remote (CleanTemporaryBindings env p (OfGCP o) w).2
                              (Project o)) ∧
             Role b' = Role b ∧ Condition b' = Condition b ∧ m ∈ Members b') ∧
    (∀ b', b' ∈ Bindings (remote (CleanTemporaryBindings env p (OfGCP o) w).2
                            (Project o)) →
       ∃ b, b ∈ Bindings (remote w (Project o)) ∧
            Role b' = Role b ∧ Condition b' = Condition b ∧
            sublist (Members b') (Members b)) ∧
    settled (User o)
      (Bindings (remote (CleanTemporaryBindings env p (OfGCP o) w).2 (Project o))).
Proof.
  intros env p o w Hdry Hcall Hcall' Hnd.
  destruct (Clean_stores_rebuilt env p o w Hdry Hcall Hcall' Hnd) as [Hnil ->].
  split; [exact Hnil|]. split; [|split; [|split]].
  - intros b Hb Htemp. apply rebuild_elem. exists b. split; [done|].
    unfold rebuildBinding. by rewrite Htemp.
  - intros b m Hb Hm Hsel.
    destruct (rebuild_keeps_member (User o) b m Hm Hsel) as (b' & Hb' & ?).
    exists b'. split; [|done]. apply rebuild_elem. by exists b.
  - intros b' Hb'. apply rebuild_elem in Hb' as (b & Hb & Hre).
    exists b. split; [done|]. by apply rebuild_only_shrinks with (User o).
  - assert (Hpure :
      removeEach (reverse (collectFrom (User o) (length (@nil Binding))
                             (Bindings (remote w (Project o)))))
        ([] ++ Bindings (remote w (Project o)))
      = Some ([] ++ rebuildBindings (User o) (Bindings (remote w (Project o))))).
    { apply removeEach_rebuildBindings. by apply Forall_forall. }
    apply removeEach_settles in Hpure as (suf & Heq & Hs).
    simpl in Heq. by rewrite Heq.
Qed.

(** X11 at work: the examples' policy, cleaned for one of two users. *)
Lemma Clean_removes_selected_members_only_witness :
  dryRun (NewGCPProvider false) = false ∧
  apiError calmEnv (calls storedWorld) = None ∧
  apiError calmEnv (S (calls storedWorld)) = None ∧
  (∀ b, b ∈ Bindings (remote storedWorld "p") → isTemporary b = true →
        NoDup (filter (λ m, memberSelected "b@example.com" m) (Members b))) ∧
  (CleanTemporaryBindings calmEnv (NewGCPProvider false) cleanB storedWorld).1
    = Returned None.
Proof.
  assert (Hdry : dryRun (NewGCPProvider false) = false) by reflexivity.
  assert (H0 : apiError calmEnv (calls storedWorld) = None) by reflexivity.
  assert (H1 : apiError calmEnv (S (calls storedWorld)) = None) by reflexivity.
  assert (Hnd : ∀ b, b ∈ Bindings (remote storedWorld "p") →
            isTemporary b = true →
            NoDup (filter (λ m, memberSelected "b@example.com" m) (Members b))).
  { intros b Hb _. apply list_elem_of_In in Hb. simpl in Hb.
    destruct Hb as [<-|[<-|[]]]; vm_compute; apply NoDup_singleton. }
  split; [exact Hdry|]. split; [exact H0|]. split; [exact H1|].
  split; [exact Hnd|].
  destruct (Clean_removes_selected_members_only calmEnv (NewGCPProvider false)
              (mkOptions "p" [] "b@example.com" 0) storedWorld Hdry H0 H1 Hnd)
    as [Hnil _].
  exact Hnil.
Defined.
